(** * Reward-guided instantaneous scheduling

    A shallow embedding of [schedulers/sadcher.py],
    [schedulers/initialize_schedulers.py] and the decision loop of
    [benchmarking/benchmark_schedulers.py], followed by the properties of the
    design document that are settled on it.

    Conventions of the embedding:
    - reward values, durations and simulated time are the real-valued
      quantities of the design document, represented by canonical rationals
      [Qc]; rounding of 32-bit floats and NaN are outside the model, except
      for the floor of the clamp, which is settled on 32-bit values;
    - a tensor of rank two is a list of rows;
    - Python objects that are shared and mutated (the simulation, its robots,
      the scheduler) live in an explicit store, and a reference to a task or a
      robot is its position in [sim.tasks] or [sim.robots];
    - an exception is a value of [PyError]; a call that raises keeps the
      mutations made before the raise;
    - code of the repository that is imported but not part of the three
      files (tasks, robots, the simulation, the network, the matcher, the
      filters, the other scheduler classes) and the libraries (torch, numpy,
      time) enter through the classes [SchedulerExternals] and
      [DriverExternals];
    - writes to standard output are not modelled. *)

From Stdlib Require Import QArith Qcanon.
From stdpp Require Import base numbers list strings gmap.

(** ** Numbers and tensors *)

Definition Matrix := list (list Qc).

(** The literal [1e-6] of [torch.clamp(..., min=1e-6)]. *)
Definition reward_floor : Qc := Q2Qc 1e-6%Q.

(** The literal [-1000] of [torch.ones(n_robots, 1) * (-1000)]. *)
Definition sentinel_reward : Qc := Q2Qc (-1000)%Q.

(** [torch.clamp(x, min=c)] on one entry: [c] when [x < c], else [x]. *)
Definition clamp_min (c x : Qc) : Qc := if decide (x < c)%Qc then c else x.

Definition torch_clamp (m : Matrix) (c : Qc) : Matrix := map (map (clamp_min c)) m.

Definition torch_zeros (n_rows n_cols : nat) : Matrix :=
  replicate n_rows (replicate n_cols 0%Qc).

(** [torch.ones(n, 1) * v]: one column, [n] rows. *)
Definition torch_column (n_rows : nat) (v : Qc) : Matrix := replicate n_rows [v].

(** ** Exceptions *)

Inductive PyError :=
  | TypeError (msg : string)
  | ValueError (msg : string)
  | IndexError (msg : string)
  | AttributeError (msg : string)
  | RuntimeError (msg : string)
  | OSError (msg : string).

Inductive Result (A : Type) :=
  | Ok (a : A)
  | Raise (e : PyError).
Arguments Ok {A} a.
Arguments Raise {A} e.

Definition is_ok {A} (r : Result A) : bool :=
  match r with Ok _ => true | Raise _ => false end.

Definition result_bind {A B} (r : Result A) (k : A → Result B) : Result B :=
  match r with Ok a => k a | Raise e => Raise e end.

(** [torch.cat((a, m, b), dim=1)]: the three tensors must have the same
    number of rows. *)
Definition torch_cat_dim1 (a m b : Matrix) : Result Matrix :=
  if decide (length a = length m ∧ length m = length b)
  then Ok (zip_with app (zip_with app a m) b)
  else Raise (RuntimeError "Sizes of tensors must match except in dimension 1").

(** Python's [l[start:stop]] for a list, negative positions counted from the
    end and both positions clipped to the list. *)
Definition py_index (len : nat) (i : Z) : nat :=
  if decide (i < 0)%Z then Z.to_nat (Z.max 0 (Z.of_nat len + i))
  else Nat.min len (Z.to_nat i).

Definition py_slice {A} (l : list A) (start stop : Z) : list A :=
  let lo := py_index (length l) start in
  let hi := py_index (length l) stop in
  take (hi - lo) (drop lo l).

(** ** Data model *)

Record Task := {
  task_id : nat;
  incomplete : bool;
  status : string;
}.

(** [current_task] is a reference to a task object: [None] is Python's
    [None], [Some i] the task stored at position [i] of [sim.tasks]. *)
Record Robot := {
  robot_id : nat;
  available : bool;
  current_task : option nat;
}.

Record Simulation := {
  robots : list Robot;
  tasks : list Task;
  task_adjacency : Matrix;
  timestep : Qc;
  sim_done : bool;
  makespan : Qc;
  duration_normalization : Qc;
  location_normalization : Qc;
}.

(** The matcher's answer: a dict from [(robot, task)] to a value, in
    insertion order. *)
Definition Solution := list ((nat * nat) * Qc).

(** [Instantaneous_Schedule(robot_assignments)]. *)
Record Instantaneous_Schedule := {
  robot_assignments : gmap nat nat;
}.

(** ** Checkpoints *)

Record Tensor := {
  tensor_size : list nat;
  tensor_data : list Qc;
}.

(** What [torch.load] can return, as far as [load_model_weights] looks into
    it: a dict with string keys, or a tensor. *)
#[warnings="-register-all"]
Inductive PyObj :=
  | PyDict (items : list (string * PyObj))
  | PyTensor (t : Tensor).

Definition StateDict := list (string * Tensor).

(** The value of a Python argument that may or may not be a string. *)
Inductive PyArg :=
  | PyNone
  | PyStr (s : string)
  | PyNum (q : Qc).

(** ** What the scheduler imports

    [Task.feature_vector], [Robot.feature_vector], the network
    ([models.scheduler_network]), the matcher
    ([schedulers.bipartite_matching]), the two filters
    ([schedulers.filtering_assignments]) and torch's generator and loader.
    The filters and the matcher receive the simulation and are taken to read
    it only, as the design document says of them. *)

Class SchedulerExternals := {
  task_feature_vector : Task → Qc → Qc → list Qc;
  robot_feature_vector : Robot → Qc → Qc → list Qc;
  (** state dict of a freshly constructed [SchedulerNetwork] *)
  SchedulerNetwork_state_dict : StateDict;
  (** forward pass: weights, robot features, task features, adjacency *)
  SchedulerNetwork_forward : StateDict → Matrix → Matrix → Matrix → Matrix;
  torch_load : string → Result PyObj;
  (** the draw of the standard normal for entry [(i, j)] when the generator
      is in state [g] *)
  standard_normal : nat → nat → nat → Qc;
  Matcher : Type;
  CachedBipartiteMatcher : Simulation → Matcher;
  solve : Matcher → Matrix → Solution * Matcher;
  filter_redundant_assignments : Solution → Simulation → Solution;
  filter_overassignments : Solution → Simulation → Solution;
}.

(** The calls that leave the scheduler, in the order they happen. *)
Inductive Event :=
  | OracleCall (robot_features task_features adjacency : Matrix)
  | MatcherBuilt
  | MatcherSolve (reward : Matrix).

Definition is_oracle_call (e : Event) : bool :=
  match e with OracleCall _ _ _ => true | _ => false end.

Definition is_matcher_call (e : Event) : bool :=
  match e with MatcherBuilt | MatcherSolve _ => true | _ => false end.

(** The reward matrices handed to [solve]. *)
Definition matcher_inputs (evs : list Event) : list Matrix :=
  omap (λ e, match e with MatcherSolve m => Some m | _ => None end) evs.

Section Scheduler.
Context `{SchedulerExternals}.

(** [SadcherScheduler] and its subclass [StochasticILSadcherScheduler], which
    adds the attribute [stddev] and overrides [sample_rewards]. *)
Inductive SadcherClass :=
  | SadcherBase
  | StochasticIL (stddev : Qc).

Record SadcherScheduler := {
  trained_model : StateDict;
  debug : bool;
  self_duration_normalization : Qc;
  self_location_normalization : Qc;
  bipartite_matcher : option Matcher;
  class : SadcherClass;
}.

(** The store a decision point runs in. *)
Record World := {
  w_sim : Simulation;
  w_self : SadcherScheduler;
  w_generator : nat;
}.

(** State, exceptions and the log of outgoing calls. *)
Definition M (A : Type) : Type := World → Result A * World * list Event.

Definition ret {A} (a : A) : M A := λ w, (Ok a, w, []).

Definition bind {A B} (c : M A) (k : A → M B) : M B := λ w,
  match c w with
  | (Ok a, w1, evs1) => let '(r, w2, evs2) := k a w1 in (r, w2, evs1 ++ evs2)
  | (Raise e, w1, evs1) => (Raise e, w1, evs1)
  end.

Definition raise {A} (e : PyError) : M A := λ w, (Raise e, w, []).
Definition emit (e : Event) : M unit := λ w, (Ok tt, w, [e]).
Definition get_sim : M Simulation := λ w, (Ok (w_sim w), w, []).
Definition get_self : M SadcherScheduler := λ w, (Ok (w_self w), w, []).

Definition put_sim (s : Simulation) : M unit := λ w,
  (Ok tt, {| w_sim := s; w_self := w_self w; w_generator := w_generator w |}, []).
Definition put_self (s : SadcherScheduler) : M unit := λ w,
  (Ok tt, {| w_sim := w_sim w; w_self := s; w_generator := w_generator w |}, []).
Definition next_generator_state : M nat := λ w,
  (Ok (w_generator w),
   {| w_sim := w_sim w; w_self := w_self w; w_generator := S (w_generator w) |}, []).

Definition lift_result {A} (r : Result A) : M A := λ w, (r, w, []).

Notation "x <~ c ;; k" := (bind c (λ x, k))
  (at level 200, c at level 99, k at level 200, only parsing).
Notation "c ;;; k" := (bind c (λ _, k))
  (at level 200, k at level 200, only parsing).

(** [for x in l: acc = body(acc, x)] *)
Fixpoint for_each {A B} (l : list A) (body : B → A → M B) (acc : B) : M B :=
  match l with
  | [] => ret acc
  | x :: l' => acc' <~ body acc x ;; for_each l' body acc'
  end.

Definition result_of {A} (x : Result A * World * list Event) : Result A := x.1.1.
Definition world_of {A} (x : Result A * World * list Event) : World := x.1.2.
Definition events_of {A} (x : Result A * World * list Event) : list Event := x.2.

(** ** [sadcher.py] *)

Definition indexed {A} (l : list A) : list (nat * A) := imap pair l.

Definition set_robots (sim : Simulation) (rs : list Robot) : Simulation :=
  {| robots := rs; tasks := tasks sim; task_adjacency := task_adjacency sim;
     timestep := timestep sim; sim_done := sim_done sim; makespan := makespan sim;
     duration_normalization := duration_normalization sim;
     location_normalization := location_normalization sim |}.

Definition set_current_task (robot : Robot) (t : option nat) : Robot :=
  {| robot_id := robot_id robot; available := available robot; current_task := t |}.

Definition set_bipartite_matcher (self : SadcherScheduler) (m : option Matcher)
  : SadcherScheduler :=
  {| trained_model := trained_model self; debug := debug self;
     self_duration_normalization := self_duration_normalization self;
     self_location_normalization := self_location_normalization self;
     bipartite_matcher := m; class := class self |}.

(** [[robot for robot in sim.robots if robot.available]]: references. *)
Definition available_robots (sim : Simulation) : list nat :=
  (filter (λ p, Is_true (available p.2)) (indexed (robots sim))).*1.

(** [[task for task in sim.tasks if task.incomplete and task.status == "PENDING"]]:
    references, each with the object it points to. *)
Definition incomplete_tasks (sim : Simulation) : list (nat * Task) :=
  filter (λ p, Is_true (incomplete p.2 && bool_decide (status p.2 = "PENDING")))
         (indexed (tasks sim)).

(** Body of the loop of the end-game branch:
    [robot_assignments[robot.robot_id] = incomplete_tasks[0].task_id] and
    [robot.current_task = incomplete_tasks[0]]. *)
Definition send_to_task (task_ref : nat) (task : Task)
    (assignments : gmap nat nat) (robot_ref : nat) : M (gmap nat nat) :=
  sim <~ get_sim ;;
  match robots sim !! robot_ref with
  | None => raise (IndexError "list index out of range")
  | Some robot =>
      put_sim (set_robots sim
                 (<[robot_ref := set_current_task robot (Some task_ref)]> (robots sim))) ;;;
      ret (<[robot_id robot := task_id task]> assignments)
  end.

Definition extract_task_robot_features (self : SadcherScheduler) (sim : Simulation)
  : Matrix * Matrix :=
  let task_features :=
    map (λ task, task_feature_vector task (self_location_normalization self)
                                     (self_duration_normalization self))
        (py_slice (tasks sim) 1 (-2)) in
  let robot_features :=
    map (λ robot, robot_feature_vector robot (self_location_normalization self)
                                       (self_duration_normalization self))
        (robots sim) in
  (task_features, robot_features).

(** [self.trained_model(robot_features, task_features, task_adjacency)] *)
Definition call_trained_model (robot_features task_features adjacency : Matrix)
  : M Matrix :=
  self <~ get_self ;;
  emit (OracleCall robot_features task_features adjacency) ;;;
  ret (SchedulerNetwork_forward (trained_model self) robot_features task_features adjacency).

(** [torch.normal(mean, std)] with a tensor of means and one spread: the
    draws of the standard normal scaled by [std] and shifted by [mean];
    a negative spread is refused. *)
Definition torch_normal (mean : Matrix) (std : Qc) : M Matrix :=
  if decide (std < 0)%Qc then raise (RuntimeError "normal expects std >= 0.0")
  else
    g <~ next_generator_state ;;
    ret (imap (λ i row, imap (λ j x, (standard_normal g i j * std + x)%Qc) row) mean).

Definition SadcherScheduler_sample_rewards (predicted_reward : Matrix) : M Matrix :=
  ret predicted_reward.

Definition StochasticILSadcherScheduler_sample_rewards (stddev : Qc)
    (predicted_reward : Matrix) : M Matrix :=
  sampled <~ torch_normal predicted_reward stddev ;;
  ret (torch_clamp sampled reward_floor).

(** [self.sample_rewards(...)]: the method of the object's class. *)
Definition sample_rewards (predicted_reward : Matrix) : M Matrix :=
  self <~ get_self ;;
  match class self with
  | SadcherBase => SadcherScheduler_sample_rewards predicted_reward
  | StochasticIL stddev => StochasticILSadcherScheduler_sample_rewards stddev predicted_reward
  end.

(** The block under [if self.debug]: it reads entry [[robot_idx][task_idx]]
    of both matrices for every robot and every task of the simulation. *)
Definition debug_block (n_tasks : nat) (predicted_reward_raw predicted_reward : Matrix)
  : M unit :=
  self <~ get_self ;;
  if debug self then
    if forallb (λ row, n_tasks <=? length row) predicted_reward_raw
       && forallb (λ row, n_tasks <=? length row) predicted_reward
    then ret tt
    else raise (IndexError "index is out of bounds")
  else ret tt.

Definition get_bipartite_matcher : M Matcher :=
  self <~ get_self ;;
  match bipartite_matcher self with
  | Some m => ret m
  | None =>
      sim <~ get_sim ;;
      emit MatcherBuilt ;;;
      put_self (set_bipartite_matcher self (Some (CachedBipartiteMatcher sim))) ;;;
      ret (CachedBipartiteMatcher sim)
  end.

(** [self.bipartite_matcher.solve(predicted_reward, ...)]; the matcher keeps
    its own state between calls. *)
Definition bipartite_matcher_solve (m : Matcher) (predicted_reward : Matrix) : M Solution :=
  emit (MatcherSolve predicted_reward) ;;;
  self <~ get_self ;;
  put_self (set_bipartite_matcher self (Some (solve m predicted_reward).2)) ;;;
  ret (solve m predicted_reward).1.

(** [{robot: task for (robot, task), val in solution.items() if val == 1}] *)
Definition selected_assignments (solution : Solution) : gmap nat nat :=
  foldl (λ acc entry, if decide (entry.2 = 1%Qc) then <[entry.1.1 := entry.1.2]> acc else acc)
        ∅ solution.

Definition calculate_robot_assignment : M (Matrix * Instantaneous_Schedule) :=
  sim <~ get_sim ;;
  let n_robots := length (robots sim) in
  if decide (length (incomplete_tasks sim) = 1) then
    match incomplete_tasks sim with
    | (task_ref, task) :: _ =>
        assignments <~ for_each (available_robots sim) (send_to_task task_ref task) ∅ ;;
        ret (torch_zeros n_robots (length (tasks sim)),
             {| robot_assignments := assignments |})
    | [] => raise (IndexError "list index out of range")
    end
  else
    self <~ get_self ;;
    let '(task_features, robot_features) := extract_task_robot_features self sim in
    predicted_reward_raw <~
      call_trained_model robot_features task_features (task_adjacency sim) ;;
    predicted_reward <~ sample_rewards (torch_clamp predicted_reward_raw reward_floor) ;;
    let reward_start_end := torch_column n_robots sentinel_reward in
    predicted_reward <~
      lift_result (torch_cat_dim1 reward_start_end predicted_reward reward_start_end) ;;
    predicted_reward_raw <~
      lift_result (torch_cat_dim1 reward_start_end predicted_reward_raw reward_start_end) ;;
    debug_block (length (tasks sim)) predicted_reward_raw predicted_reward ;;;
    matcher <~ get_bipartite_matcher ;;
    bipartite_matching_solution <~ bipartite_matcher_solve matcher predicted_reward ;;
    sim <~ get_sim ;;
    let filtered_solution := filter_redundant_assignments bipartite_matching_solution sim in
    let filtered_solution := filter_overassignments filtered_solution sim in
    ret (predicted_reward, {| robot_assignments := selected_assignments filtered_solution |}).

(** *** Loading the weights *)

(** [d.get(key, default)] *)
Definition dict_get (d : PyObj) (key : string) (default : PyObj) : Result PyObj :=
  match d with
  | PyDict items =>
      Ok (match list_find (λ kv, kv.1 = key) items with
          | Some (_, kv) => kv.2
          | None => default
          end)
  | PyTensor _ => Raise (AttributeError "'Tensor' object has no attribute 'get'")
  end.

(** [d.items()] *)
Definition dict_items (d : PyObj) : Result (list (string * PyObj)) :=
  match d with
  | PyDict items => Ok items
  | PyTensor _ => Raise (AttributeError "'Tensor' object has no attribute 'items'")
  end.

(** [d[k] = v] on a dict kept in insertion order. *)
Fixpoint dict_set {V} (d : list (string * V)) (k : string) (v : V) : list (string * V) :=
  match d with
  | [] => [(k, v)]
  | (k', v') :: d' => if decide (k' = k) then (k, v) :: d' else (k', v') :: dict_set d' k v
  end.

Definition dict_lookup {V} (d : list (string * V)) (k : string) : option V :=
  snd <$> (snd <$> list_find (λ kv, kv.1 = k) d).

(** [k[len(prefix):] if k.startswith(prefix) else k] *)
Definition strip_prefix (prefix k : string) : string :=
  if String.prefix prefix k
  then String.substring (String.length prefix) (String.length k - String.length prefix) k
  else k.

(** [k in current_state_dict and v.size() == current_state_dict[k].size()];
    [v.size()] is evaluated only when the key is present. *)
Definition layer_matches (current : StateDict) (k : string) (v : PyObj) : Result bool :=
  match dict_lookup current k with
  | None => Ok false
  | Some cur =>
      match v with
      | PyTensor t => Ok (bool_decide (tensor_size t = tensor_size cur))
      | PyDict _ => Raise (AttributeError "'dict' object has no attribute 'size'")
      end
  end.

Fixpoint filter_matching_layers (current : StateDict) (items : list (string * PyObj))
  : Result StateDict :=
  match items with
  | [] => Ok []
  | (k, v) :: items' =>
      result_bind (layer_matches current k v) (λ keep,
      result_bind (filter_matching_layers current items') (λ rest,
      Ok (match v with
          | PyTensor t => if keep then (k, t) :: rest else rest
          | PyDict _ => rest
          end)))
  end.

(** [model.load_state_dict(filtered, strict=False)]: every layer named in
    [filtered] is overwritten, the others keep their value. *)
Definition load_state_dict (current filtered : StateDict) : StateDict :=
  map (λ kv, (kv.1, default kv.2 (dict_lookup filtered kv.1))) current.

Definition load_model_weights (current : StateDict) (checkpoint_path : PyArg)
    (debugging : bool) : Result StateDict :=
  match checkpoint_path with
  | PyNone => Raise (ValueError "Checkpoint path must be provided")
  | PyNum _ => Raise (ValueError "Checkpoint path must be a string")
  | PyStr path =>
      result_bind (torch_load path) (λ checkpoint,
      result_bind (dict_get checkpoint "state_dict" checkpoint) (λ inner,
      result_bind (dict_get inner "policy" checkpoint) (λ policy,
      result_bind (dict_items policy) (λ items,
      let checkpoint_state_dict :=
        foldl (λ d kv, dict_set d (strip_prefix "scheduler_net." kv.1) kv.2) [] items in
      result_bind (filter_matching_layers current checkpoint_state_dict) (λ filtered,
      Ok (load_state_dict current filtered))))))
  end.

(** [SadcherScheduler.__init__] *)
Definition SadcherScheduler_init (debugging : bool) (checkpoint_path : PyArg)
    (duration_normalization location_normalization : Qc) : Result SadcherScheduler :=
  result_bind (load_model_weights SchedulerNetwork_state_dict checkpoint_path debugging)
    (λ weights,
      Ok {| trained_model := weights; debug := debugging;
            self_duration_normalization := duration_normalization;
            self_location_normalization := location_normalization;
            bipartite_matcher := None; class := SadcherBase |}).

(** [StochasticILSadcherScheduler.__init__]: the constructor of the base
    class, then [self.stddev = stddev]. *)
Definition StochasticILSadcherScheduler_init (debugging : bool) (checkpoint_path : PyArg)
    (duration_normalization location_normalization stddev : Qc) : Result SadcherScheduler :=
  result_bind
    (SadcherScheduler_init debugging checkpoint_path duration_normalization
                           location_normalization)
    (λ self,
      Ok {| trained_model := trained_model self; debug := debug self;
            self_duration_normalization := self_duration_normalization self;
            self_location_normalization := self_location_normalization self;
            bipartite_matcher := bipartite_matcher self; class := StochasticIL stddev |}).

End Scheduler.

(** ** What the benchmark imports

    The simulation ([simulation_environment.simulator_2D]), the scheduler
    classes other than the two of [sadcher.py], and the clock. A value that
    crosses a call boundary untyped is a [PyVal]. *)

Inductive PyVal :=
  | VSchedule (s : Instantaneous_Schedule)
  | VTensor (m : Matrix)
  | VTuple (a b : PyVal).

Record ProblemInstance := {
  T_e : list Qc;
  T_t : list (list Qc);
}.

Class DriverExternals `{SchedulerExternals} := {
  Simulation_init : ProblemInstance → string → Result Simulation;
  find_highest_non_idle_reward : Simulation → Matrix → Simulation;
  assign_tasks_to_robots : Simulation → Instantaneous_Schedule → Simulation;
  step_until_next_decision_point : Simulation → Simulation;
  (** the n-th reading of [time.time()] *)
  time_time : nat → Qc;
  OtherScheduler : Type;
  GreedyInstantaneousScheduler_init : Result OtherScheduler;
  RandomBipartiteMatchingScheduler_init : Result OtherScheduler;
  RLSadcherScheduler_init : bool → PyArg → Qc → Qc → Result OtherScheduler;
  (** [isinstance(scheduler, SadcherScheduler)] for an object of these classes *)
  other_isinstance_SadcherScheduler : OtherScheduler → bool;
  other_calculate_robot_assignment :
    OtherScheduler → Simulation → Result PyVal * OtherScheduler * Simulation;
}.

Section Driver.
Context `{DriverExternals}.

(** ** [initialize_schedulers.py] *)

Inductive Scheduler :=
  | SadcherObject (self : SadcherScheduler)
  | OtherObject (self : OtherScheduler).

Definition result_map {A B} (f : A → B) (r : Result A) : Result B :=
  result_bind r (λ a, Ok (f a)).

Definition create_scheduler (name : string) (checkpoint_path : PyArg)
    (duration_normalization location_normalization : Qc) (debugging : bool)
    (stddev : Qc) : Result Scheduler :=
  if decide (name = "greedy") then
    result_map OtherObject GreedyInstantaneousScheduler_init
  else if decide (name = "random_bipartite") then
    result_map OtherObject RandomBipartiteMatchingScheduler_init
  else if decide (name = "sadcher") then
    result_map SadcherObject
      (SadcherScheduler_init debugging checkpoint_path duration_normalization
                             location_normalization)
  else if decide (name ∈ ["rl_sadcher"; "rl_sadcher_sampling"]) then
    result_map OtherObject
      (RLSadcherScheduler_init debugging checkpoint_path duration_normalization
                               location_normalization)
  else if decide (name = "stochastic_IL_sadcher") then
    result_map SadcherObject
      (StochasticILSadcherScheduler_init debugging checkpoint_path duration_normalization
                                         location_normalization stddev)
  else Raise (ValueError ("Unknown scheduler '" +:+ name +:+ "'")).

(** The parameters [create_scheduler] declares. *)
Definition create_scheduler_parameters : list string :=
  ["name"; "checkpoint_path"; "duration_normalization"; "location_normalization";
   "debugging"; "stddev"].

(** Python binds the keywords of a call before the body runs and refuses a
    keyword the function does not declare. *)
Definition check_keywords (function : string) (parameters keywords : list string)
  : Result unit :=
  match list_find (λ k, k ∉ parameters) keywords with
  | Some (_, k) =>
      Raise (TypeError (function +:+ "() got an unexpected keyword argument '" +:+ k +:+ "'"))
  | None => Ok tt
  end.

(** ** [benchmark_schedulers.py] *)

Definition Qcmax (x y : Qc) : Qc := if decide (x < y)%Qc then y else x.

Definition np_sum (l : list Qc) : Qc := foldr Qcplus 0%Qc l.

Definition np_max (l : list Qc) : Result Qc :=
  match l with
  | [] => Raise (ValueError "zero-size array to reduction operation maximum which has no identity")
  | x :: l' => Ok (foldl Qcmax x l')
  end.

Fixpoint result_mapM {A B} (f : A → Result B) (l : list A) : Result (list B) :=
  match l with
  | [] => Ok []
  | x :: l' => result_bind (f x) (λ y, result_bind (result_mapM f l') (λ ys, Ok (y :: ys)))
  end.

(** [np.sum(T_e) + np.sum([np.max(T_t[task]) for task in range(len(T_e))])] *)
Definition worst_case_makespan (problem_instance : ProblemInstance) : Result Qc :=
  result_bind
    (result_mapM
       (λ task, match T_t problem_instance !! task with
                | Some row => np_max row
                | None => Raise (IndexError "index out of bounds")
                end)
       (seq 0 (length (T_e problem_instance))))
    (λ maxima, Ok (np_sum (T_e problem_instance) + np_sum maxima)%Qc).

Definition set_makespan (sim : Simulation) (m : Qc) : Simulation :=
  {| robots := robots sim; tasks := tasks sim; task_adjacency := task_adjacency sim;
     timestep := timestep sim; sim_done := sim_done sim; makespan := m;
     duration_normalization := duration_normalization sim;
     location_normalization := location_normalization sim |}.

(** The objects a run owns. *)
Record Run := {
  run_sim : Simulation;
  run_scheduler : Scheduler;
  run_generator : nat;
  run_clock : nat;
  current_run_computation_times : list Qc;
}.

Definition unpack_pair (v : PyVal) : Result (PyVal * PyVal) :=
  match v with
  | VTuple a b => Ok (a, b)
  | _ => Raise (TypeError "cannot unpack non-iterable object")
  end.

Definition as_tensor (v : PyVal) : Result Matrix :=
  match v with
  | VTensor m => Ok m
  | _ => Raise (TypeError "not a tensor")
  end.

Definition as_schedule (v : PyVal) : Result Instantaneous_Schedule :=
  match v with
  | VSchedule s => Ok s
  | _ => Raise (AttributeError "object has no attribute 'robot_assignments'")
  end.

(** [scheduler.calculate_robot_assignment(sim)] as the caller sees it: the
    returned value, the scheduler and the simulation after the call, and the
    state of the generator. *)
Definition call_calculate_robot_assignment (scheduler : Scheduler) (sim : Simulation)
    (generator : nat) : Result PyVal * Scheduler * Simulation * nat :=
  match scheduler with
  | SadcherObject self =>
      let '(r, w, _) :=
        calculate_robot_assignment
          {| w_sim := sim; w_self := self; w_generator := generator |} in
      (result_map (λ p : Matrix * Instantaneous_Schedule, VTuple (VTensor p.1) (VSchedule p.2)) r,
       SadcherObject (w_self w), w_sim w, w_generator w)
  | OtherObject self =>
      let '(r, self', sim') := other_calculate_robot_assignment self sim in
      (r, OtherObject self', sim', generator)
  end.

Definition isinstance_SadcherScheduler (scheduler : Scheduler) : bool :=
  match scheduler with
  | SadcherObject _ => true
  | OtherObject self => other_isinstance_SadcherScheduler self
  end.

(** Lines 42 to 48 of the loop: the schedule of this decision point and the
    run after the scheduler has been called, nothing committed yet. *)
Definition decide_schedule (st : Run) : Result Instantaneous_Schedule * Run :=
  let start_time := time_time (run_clock st) in
  let '(r, scheduler, sim, generator) :=
    call_calculate_robot_assignment (run_scheduler st) (run_sim st) (run_generator st) in
  let after_call (sim : Simulation) (clock : nat) (times : list Qc) :=
    {| run_sim := sim; run_scheduler := scheduler; run_generator := generator;
       run_clock := clock; current_run_computation_times := times |} in
  let failed := after_call sim (S (run_clock st)) (current_run_computation_times st) in
  let times :=
    current_run_computation_times st ++ [(time_time (S (run_clock st)) - start_time)%Qc] in
  match r with
  | Raise e => (Raise e, failed)
  | Ok v =>
      if isinstance_SadcherScheduler (run_scheduler st) then
        match result_bind (unpack_pair v) (λ p,
              result_bind (as_tensor p.1) (λ reward,
              result_bind (as_schedule p.2) (λ schedule, Ok (reward, schedule)))) with
        | Raise e => (Raise e, failed)
        | Ok (predicted_reward, instantaneous_schedule) =>
            (Ok instantaneous_schedule,
             after_call (find_highest_non_idle_reward sim predicted_reward)
                        (S (S (run_clock st))) times)
        end
      else
        match as_schedule v with
        | Raise e => (Raise e, after_call sim (S (S (run_clock st))) times)
        | Ok instantaneous_schedule =>
            (Ok instantaneous_schedule, after_call sim (S (S (run_clock st))) times)
        end
  end.

Definition with_sim (st : Run) (sim : Simulation) : Run :=
  {| run_sim := sim; run_scheduler := run_scheduler st; run_generator := run_generator st;
     run_clock := run_clock st;
     current_run_computation_times := current_run_computation_times st |}.

(** Lines 42 to 51: one decision point. *)
Definition decision_point (st : Run) : Result unit * Run :=
  match decide_schedule st with
  | (Raise e, st') => (Raise e, st')
  | (Ok instantaneous_schedule, st') =>
      (Ok tt,
       with_sim st'
         (step_until_next_decision_point
            (assign_tasks_to_robots (run_sim st') instantaneous_schedule)))
  end.

(** The [while] loop and the [return] of [run_one_simulation]. [None] means
    that the loop is still running after [fuel] decision points. *)
Fixpoint simulation_loop (fuel : nat) (worst_case : Qc) (st : Run)
  : option (Result (Qc * bool * list Qc)) :=
  if sim_done (run_sim st) then
    Some (Ok (makespan (run_sim st), true, current_run_computation_times st))
  else
    match fuel with
    | 0 => None
    | S fuel' =>
        match decision_point st with
        | (Raise e, _) => Some (Raise e)
        | (Ok _, st') =>
            if decide (worst_case < timestep (run_sim st'))%Qc then
              Some (Ok (makespan (set_makespan (run_sim st') worst_case), false,
                        current_run_computation_times st'))
            else simulation_loop fuel' worst_case st'
        end
    end.

(** The keywords of the call of [create_scheduler] in [run_one_simulation]. *)
Definition run_one_simulation_keywords : list string :=
  ["model_name"; "duration_normalization"; "location_normalization"; "stddev"].

(** Lines 31 to 38: the call of [create_scheduler]. *)
Definition construct_scheduler (sim : Simulation) (scheduler_name : string)
    (checkpoint_path : PyArg) : Result Scheduler :=
  result_bind
    (check_keywords "create_scheduler" create_scheduler_parameters
                    run_one_simulation_keywords)
    (λ _, create_scheduler scheduler_name checkpoint_path (duration_normalization sim)
                           (location_normalization sim) false (Q2Qc 0.5%Q)).

Definition run_one_simulation (fuel : nat) (problem_instance : ProblemInstance)
    (scheduler_name : string) (checkpoint_path : PyArg) (generator : nat)
  : option (Result (Qc * bool * list Qc)) :=
  match worst_case_makespan problem_instance with
  | Raise e => Some (Raise e)
  | Ok worst_case =>
  match Simulation_init problem_instance scheduler_name with
  | Raise e => Some (Raise e)
  | Ok sim =>
  match construct_scheduler sim scheduler_name checkpoint_path with
  | Raise e => Some (Raise e)
  | Ok scheduler =>
      simulation_loop fuel worst_case
        {| run_sim := sim; run_scheduler := scheduler; run_generator := generator;
           run_clock := 0; current_run_computation_times := [] |}
  end end end.

End Driver.

(** ** The assignment filters

    [schedulers/filtering_assignments.py] is not among the three files; the
    two passes are given here as the design document describes them. *)

Module Filtering.
Section Filters.
(** A task's concurrency capacity and the reward of a (robot, task) pair, as
    the simulation holds them. *)
Variable capacity : Simulation → nat → nat.
Variable reward : Simulation → nat → nat → Qc.

(** An entry of the matching result that assigns: its value is 1. *)
Definition assigns (entry : (nat * nat) * Qc) : Prop := entry.2 = 1%Qc.

(** The robot at position [robot] is linked to the task with identity [task]. *)
Definition already_committed (sim : Simulation) (robot task : nat) : bool :=
  match robots sim !! robot with
  | Some r =>
      match current_task r with
      | Some ref =>
          match tasks sim !! ref with
          | Some t => bool_decide (task_id t = task)
          | None => false
          end
      | None => false
      end
  | None => false
  end.

(** Another assigning pair claims the same task with a lower robot index. *)
Definition claimed_by_lower (solution : Solution) (robot task : nat) : Prop :=
  Exists (λ e, assigns e ∧ e.1.2 = task ∧ e.1.1 < robot) solution.

(** Modelled from the spec: [filter_redundant_assignments], which is not in
    the sources. "Removes a (robot, task) pair when the robot is already
    committed to that task from a prior decision point, or when the same task
    is claimed by more than one pair; in that case keep only the pair with
    lowest robot index." Entries that do not assign are left as they are. *)
Definition filter_redundant_assignments (solution : Solution) (sim : Simulation)
  : Solution :=
  filter (λ e, assigns e →
               already_committed sim e.1.1 e.1.2 = false ∧
               ¬ claimed_by_lower solution e.1.1 e.1.2)
         solution.

(** Pair [e'] is preferred to pair [e]: a higher reward, or the same reward
    and the lower index [k' < k]. *)
Definition preferred (sim : Simulation) (e' e : (nat * nat) * Qc) (k' k : nat) : Prop :=
  (reward sim e.1.1 e.1.2 < reward sim e'.1.1 e'.1.2)%Qc ∨
  (reward sim e.1.1 e.1.2 = reward sim e'.1.1 e'.1.2 ∧ k' < k).

(** The assigning pairs of the same task that are preferred to [e]. *)
Definition task_rivals (sim : Simulation) (solution : Solution) (e : (nat * nat) * Qc)
  : Solution :=
  filter (λ e', assigns e' ∧ e'.1.2 = e.1.2 ∧ preferred sim e' e e'.1.1 e.1.1) solution.

(** The assigning pairs of the same robot that are preferred to [e]. *)
Definition robot_rivals (sim : Simulation) (solution : Solution) (e : (nat * nat) * Qc)
  : Solution :=
  filter (λ e', assigns e' ∧ e'.1.1 = e.1.1 ∧ preferred sim e' e e'.1.2 e.1.2) solution.

(** Keep, per task, the capacity-many most preferred pairs. *)
Definition enforce_capacity (solution : Solution) (sim : Simulation) : Solution :=
  filter (λ e, assigns e → length (task_rivals sim solution e) < capacity sim e.1.2)
         solution.

(** Keep, per robot, its most preferred pair. *)
Definition enforce_one_task_per_robot (solution : Solution) (sim : Simulation) : Solution :=
  filter (λ e, assigns e → robot_rivals sim solution e = []) solution.

(** Modelled from the spec: [filter_overassignments], which is not in the
    sources. "Enforces each task's concurrency capacity by keeping only the
    capacity-many highest-reward robot pairs for that task and dropping the
    rest; if any robot appears in more than one pair, keep only its
    highest-reward pair." Equal rewards are ordered by index. *)
Definition filter_overassignments (solution : Solution) (sim : Simulation) : Solution :=
  enforce_one_task_per_robot (enforce_capacity solution sim) sim.

End Filters.
End Filtering.

(** ** Vocabulary of the statements *)

Section Vocabulary.
Context `{SchedulerExternals}.

(** A postcondition on the three outcomes of a computation: its result, the
    store it leaves and the calls it made. *)
Definition wp {A} (c : M A) (w : World) (Q : Result A → World → list Event → Prop) : Prop :=
  Q (result_of (c w)) (world_of (c w)) (events_of (c w)).

(** What the end-game branch does to a robot. *)
Definition mark_current_task (task_ref : nat) (robot : Robot) : Robot :=
  if available robot then set_current_task robot (Some task_ref) else robot.

(** Rows of the form [sentinel_reward, mid..., sentinel_reward] with every
    entry of [mid] at least the floor. *)
Definition framed_row (row : list Qc) : Prop :=
  ∃ mid, row = [sentinel_reward] ++ mid ++ [sentinel_reward] ∧
         Forall (λ x, (reward_floor ≤ x)%Qc) mid.

(** The entries of a row outside its first and last (sentinel) column. *)
Definition non_sentinel_entries (row : list Qc) : list Qc := py_slice row 1 (-1).

Definition floor_clamped (m : Matrix) : Prop :=
  Forall (Forall (λ x, (reward_floor ≤ x)%Qc)) m.

(** The sentinel columns of a row: its first and its last entry. *)
Definition sentinel_columns (row : list Qc) : option Qc * option Qc := (head row, last row).

(** The condition of the end-game branch, on the task objects. *)
Definition pending_incomplete (task : Task) : Prop :=
  incomplete task = true ∧ status task = "PENDING".

#[global] Instance pending_incomplete_dec task : Decision (pending_incomplete task).
Proof. unfold pending_incomplete. apply _. Defined.

(** The same store with the scheduler object of the other class. *)
Definition with_class (w : World) (c : SadcherClass) : World :=
  {| w_sim := w_sim w;
     w_self := {| trained_model := trained_model (w_self w); debug := debug (w_self w);
                  self_duration_normalization := self_duration_normalization (w_self w);
                  self_location_normalization := self_location_normalization (w_self w);
                  bipartite_matcher := bipartite_matcher (w_self w); class := c |};
     w_generator := w_generator w |}.

(** The exceptions that the body of a decision point can raise itself. *)
Definition raised_by_decision_point (e : PyError) : bool :=
  match e with
  | IndexError _ | RuntimeError _ => true
  | _ => false
  end.

End Vocabulary.


Section DriverVocabulary.
Context `{DriverExternals}.

(** The names for which [create_scheduler] has a branch. *)
Definition scheduler_names : list string :=
  ["greedy"; "random_bipartite"; "sadcher"; "rl_sadcher"; "rl_sadcher_sampling";
   "stochastic_IL_sadcher"].

(** The names whose branch constructs a scheduler of [sadcher.py]. *)
Definition sadcher_names : list string := ["sadcher"; "stochastic_IL_sadcher"].

(** One pass through the body of the loop of [run_one_simulation] that stays
    in the loop: the simulation is not finished, the decision point returns,
    and the clock is not past the bound after it. *)
Definition loop_continues (worst_case : Qc) (st st' : Run) : Prop :=
  sim_done (run_sim st) = false ∧
  decision_point st = (Ok tt, st') ∧
  ¬ (worst_case < timestep (run_sim st'))%Qc.

End DriverVocabulary.


(** ** The rewards at the precision of the code

    The tensors of [calculate_robot_assignment] have dtype [torch.float32].
    Lines 68 to 75 and [sample_rewards] are given here a second time on such
    values, for the one property that depends on their precision: the floor
    of the clamp. A 32-bit float is a NaN, an infinity or a finite number;
    which finite numbers can be represented plays no role below. *)

Inductive Float32 :=
  | F32_nan
  | F32_inf (negative : bool)
  | F32_finite (x : Qc).

Definition Matrix32 := list (list Float32).

(** The literal [1e-6] as [torch.clamp] uses it on a [float32] tensor: the
    nearest 32-bit float, [8796093 / 2^43]. *)
Definition reward_floor32 : Qc := Q2Qc (8796093 # 8796093022208).

(** [torch.clamp(x, min=1e-6)] on one entry of a [float32] tensor: a NaN is
    passed on, any other value below the floor is raised to it. *)
Definition clamp_min32 (x : Float32) : Float32 :=
  match x with
  | F32_nan => F32_nan
  | F32_inf true => F32_finite reward_floor32
  | F32_inf false => F32_inf false
  | F32_finite q => if decide (q < reward_floor32)%Qc then F32_finite reward_floor32 else x
  end.

Definition torch_clamp32 (m : Matrix32) : Matrix32 := map (map clamp_min32) m.

(** [c <= x] for a real [c] and a 32-bit float [x]; false for a NaN. *)
Definition at_least32 (c : Qc) (x : Float32) : Prop :=
  match x with
  | F32_nan => False
  | F32_inf negative => negative = false
  | F32_finite q => (c ≤ q)%Qc
  end.

Definition torch_cat_dim1_32 (a m b : Matrix32) : Result Matrix32 :=
  if decide (length a = length m ∧ length m = length b)
  then Ok (zip_with app (zip_with app a m) b)
  else Raise (RuntimeError "Sizes of tensors must match except in dimension 1").

Section Rewards32.
(** The entry [(i, j)] of [torch.normal(mean, std)] for the mean and the
    spread given, when the generator is in state [g]. *)
Variable torch_normal32 : nat → nat → nat → Float32 → Qc → Float32.

(** [sample_rewards] of the two classes. *)
Definition sample_rewards32 (c : SadcherClass) (g : nat) (predicted_reward : Matrix32)
  : Result Matrix32 :=
  match c with
  | SadcherBase => Ok predicted_reward
  | StochasticIL stddev =>
      if decide (stddev < 0)%Qc then Raise (RuntimeError "normal expects std >= 0.0")
      else Ok (torch_clamp32
                 (imap (λ i row, imap (λ j mean, torch_normal32 g i j mean stddev) row)
                       predicted_reward))
  end.

(** Lines 68 to 75: from the answer of the trained model to the matrix that
    is given to the matcher. *)
Definition predicted_reward32 (c : SadcherClass) (g : nat) (n_robots : nat)
    (predicted_reward_raw : Matrix32) : Result Matrix32 :=
  let predicted_reward := torch_clamp32 predicted_reward_raw in
  result_bind (sample_rewards32 c g predicted_reward) (λ predicted_reward,
    let reward_start_end := replicate n_robots [F32_finite sentinel_reward] in
    torch_cat_dim1_32 reward_start_end predicted_reward reward_start_end).

End Rewards32.
(** ** A small concrete setting

    Stand-ins for the imported code, used to run the definitions: a network
    that scores every pair with [-1/2], a generator whose draws are all
    [-2], a matcher that pairs robot [i] with column [i + 1], and the filters
    of the design document with capacity one. *)

Module Demo.

Definition qc (z : Z) : Qc := Q2Qc (inject_Z z).

#[warnings="-uniform-inheritance"]
Definition externals : SchedulerExternals := {|
  task_feature_vector task _ _ := [qc (Z.of_nat (task_id task))];
  robot_feature_vector robot _ _ := [qc (Z.of_nat (robot_id robot))];
  SchedulerNetwork_state_dict :=
    [("encoder.weight", {| tensor_size := [2]; tensor_data := [qc 0; qc 0] |})];
  SchedulerNetwork_forward _ robot_features task_features _ :=
    map (λ _, map (λ _, Q2Qc (-0.5)%Q) task_features) robot_features;
  torch_load path :=
    if decide (path = "model.pt")
    then Ok (PyDict [("scheduler_net.encoder.weight",
                      PyTensor {| tensor_size := [2]; tensor_data := [qc 3; qc 4] |})])
    else if decide (path = "other_model.pt")
    then Ok (PyDict [("state_dict",
                      PyDict [("decoder.bias",
                               PyTensor {| tensor_size := [1]; tensor_data := [qc 9] |});
                              ("encoder.weight",
                               PyTensor {| tensor_size := [3];
                                           tensor_data := [qc 9; qc 9; qc 9] |})])])
    else Raise (OSError "No such file or directory");
  standard_normal _ _ _ := qc (-2);
  Matcher := nat;
  CachedBipartiteMatcher _ := 0;
  solve calls reward := (imap (λ i _, ((i, S i), 1%Qc)) reward, S calls);
  filter_redundant_assignments := Filtering.filter_redundant_assignments;
  filter_overassignments := Filtering.filter_overassignments (λ _ _, 1) (λ _ _ _, 0%Qc);
|}.

Definition done_task (id : nat) : Task :=
  {| task_id := id; incomplete := false; status := "DONE" |}.
Definition pending_task (id : nat) : Task :=
  {| task_id := id; incomplete := true; status := "PENDING" |}.
Definition active_task (id : nat) : Task :=
  {| task_id := id; incomplete := true; status := "ACTIVE" |}.

Definition idle_robot (id : nat) : Robot :=
  {| robot_id := id; available := true; current_task := None |}.
Definition busy_robot (id task_ref : nat) : Robot :=
  {| robot_id := id; available := false; current_task := Some task_ref |}.

Definition snapshot (rs : list Robot) (ts : list Task) : Simulation :=
  {| robots := rs; tasks := ts; task_adjacency := [];
     timestep := 0%Qc; sim_done := false; makespan := Q2Qc (-1)%Q;
     duration_normalization := qc 100; location_normalization := qc 100 |}.

(** Only the end sentinel is left, and it is pending. *)
Definition endgame_sim : Simulation :=
  snapshot [idle_robot 0; busy_robot 1 1; idle_robot 2]
           [done_task 0; done_task 1; pending_task 2].

(** One task is left incomplete, and it is being executed. *)
Definition last_task_active_sim : Simulation :=
  snapshot [idle_robot 0] [done_task 0; done_task 1; active_task 2].

(** Two real tasks and the end sentinel are pending. *)
Definition midgame_sim : Simulation :=
  snapshot [idle_robot 0; idle_robot 1]
           [done_task 0; pending_task 1; pending_task 2; pending_task 3].

Definition scheduler (c : @SadcherClass) : @SadcherScheduler externals :=
  {| trained_model := @SchedulerNetwork_state_dict externals; debug := false;
     self_duration_normalization := qc 100; self_location_normalization := qc 100;
     bipartite_matcher := None; class := c |}.

Definition world (sim : Simulation) (c : SadcherClass) : @World externals :=
  {| w_sim := sim; w_self := scheduler c; w_generator := 0 |}.

Definition set_timestep (sim : Simulation) (t : Qc) (finished : bool) : Simulation :=
  {| robots := robots sim; tasks := tasks sim; task_adjacency := task_adjacency sim;
     timestep := t; sim_done := finished; makespan := makespan sim;
     duration_normalization := duration_normalization sim;
     location_normalization := location_normalization sim |}.

(** A simulation whose clock advances by ten at every decision point and
    which never finishes, and schedulers of the other classes that assign
    nothing. *)
#[warnings="-uniform-inheritance"]
Definition driver : @DriverExternals externals := {|
  Simulation_init _ _ := Ok midgame_sim;
  find_highest_non_idle_reward sim _ := sim;
  assign_tasks_to_robots sim _ := sim;
  step_until_next_decision_point sim := set_timestep sim (timestep sim + qc 10)%Qc false;
  time_time n := qc (Z.of_nat n);
  OtherScheduler := unit;
  GreedyInstantaneousScheduler_init := Ok tt;
  RandomBipartiteMatchingScheduler_init := Ok tt;
  RLSadcherScheduler_init _ _ _ _ := Ok tt;
  other_isinstance_SadcherScheduler _ := false;
  other_calculate_robot_assignment self sim :=
    (Ok (VSchedule {| robot_assignments := ∅ |}), self, sim);
|}.

Definition problem : ProblemInstance :=
  {| T_e := [qc 1; qc 2]; T_t := [[qc 1; qc 2]; [qc 3; qc 4]] |}.

Definition greedy_object : @Scheduler externals driver := @OtherObject externals driver tt.
Definition sadcher_object (c : SadcherClass) : @Scheduler externals driver :=
  @SadcherObject externals driver (scheduler c).

Definition run (s : @Scheduler externals driver) : @Run externals driver :=
  {| run_sim := midgame_sim; run_scheduler := s; run_generator := 0; run_clock := 0;
     current_run_computation_times := [] |}.

End Demo.

(** ** Vocabulary of the further properties *)

Section SchedulerOutcomes.
Context `{SchedulerExternals}.

(** What the trained model answers at this decision point. *)
Definition model_output (w : World) : Matrix :=
  SchedulerNetwork_forward (trained_model (w_self w))
    (extract_task_robot_features (w_self w) (w_sim w)).2
    (extract_task_robot_features (w_self w) (w_sim w)).1
    (task_adjacency (w_sim w)).

(** A row between its two sentinel entries. *)
Definition frame_row (row : list Qc) : list Qc :=
  [sentinel_reward] ++ row ++ [sentinel_reward].

(** The spread of the scheduler's class is one that [torch.normal] accepts. *)
Definition spread_accepted (c : SadcherClass) : bool :=
  match c with
  | SadcherBase => true
  | StochasticIL stddev => bool_decide (¬ (stddev < 0)%Qc)
  end.

(** The rewards after [sample_rewards], entry by entry: the clamped answer
    of the model for the base class; for the stochastic class the clamped
    answer moved by the scaled draw and clamped again. *)
Definition sampled_reward (w : World) : Matrix :=
  match class (w_self w) with
  | SadcherBase => torch_clamp (model_output w) reward_floor
  | StochasticIL stddev =>
      imap (λ i row,
              imap (λ j x, clamp_min reward_floor
                             (standard_normal (w_generator w) i j * stddev
                              + clamp_min reward_floor x)%Qc) row)
           (model_output w)
  end.

(** Every row of the model's answer, once framed, is long enough for the
    debug block to index it by every task of the simulation. *)
Definition debug_rows_ok (w : World) : bool :=
  forallb (λ row, length (tasks (w_sim w)) <=? length row + 2) (model_output w).

(** The matcher that a decision point uses: the cached one, or a new one
    built from the simulation. *)
Definition matcher_in_use (w : World) : Matcher :=
  default (CachedBipartiteMatcher (w_sim w)) (bipartite_matcher (w_self w)).

Definition is_matcher_built (e : Event) : bool :=
  match e with MatcherBuilt => true | _ => false end.

(** The conditions under which the general branch returns normally. *)
Definition general_branch_succeeds (w : World) : bool :=
  spread_accepted (class (w_self w))
  && bool_decide (length (model_output w) = length (robots (w_sim w)))
  && (negb (debug (w_self w)) || debug_rows_ok w).

End SchedulerOutcomes.

(** The value that the dict built in lines 143 to 146 of [sadcher.py] holds
    under [k]: the one of the last item of the checkpoint whose key, without
    the prefix, is [k]. *)
Definition checkpoint_entry (items : list (string * PyObj)) (k : string) : option PyObj :=
  (λ kv, kv.2) <$> last (filter (λ kv, strip_prefix "scheduler_net." kv.1 = k) items).

(** The layer [(k, t)] after loading, given what the checkpoint holds under [k]. *)
Definition loaded_layer (entry : option PyObj) (t : Tensor) : Tensor :=
  match entry with
  | Some (PyTensor t') => if bool_decide (tensor_size t' = tensor_size t) then t' else t
  | _ => t
  end.

(** Lines 101 to 106 of the benchmark: the names it runs, given the two
    options that add one. *)
Definition benchmark_scheduler_names (include_milp include_stochastic_sadcher : bool)
  : list string :=
  ["greedy"; "sadcher"; "random_bipartite"]
  ++ (if include_milp then ["milp"] else [])
  ++ (if include_stochastic_sadcher then ["stochastic_sadcher"] else []).

(** Checkpoints of the three shapes that [load_model_weights] tells apart,
    for a model with the two layers [encoder.weight] and [decoder.bias]. *)
Module CheckpointDemo.

Definition tensor (size : list nat) (data : list nat) : Tensor :=
  {| tensor_size := size; tensor_data := map (λ n, Demo.qc (Z.of_nat n)) data |}.

Definition model : StateDict :=
  [("encoder.weight", tensor [2] [0; 0]); ("decoder.bias", tensor [1] [0])].

(** A plain dict of layers: one with the prefix, one of another size, one
    that the model does not have. *)
Definition flat : list (string * PyObj) :=
  [("scheduler_net.encoder.weight", PyTensor (tensor [2] [3; 4]));
   ("decoder.bias", PyTensor (tensor [2] [5; 6]));
   ("epoch", PyDict [])].

(** The layers under [state_dict], with no [policy] entry. *)
Definition wrapped : list (string * PyObj) :=
  [("state_dict", PyDict [("encoder.weight", PyTensor (tensor [2] [7; 8]))]);
   ("epoch", PyDict [])].

(** The layers under [state_dict] and [policy]. *)
Definition with_policy : list (string * PyObj) :=
  [("state_dict",
    PyDict [("policy", PyDict [("scheduler_net.decoder.bias", PyTensor (tensor [1] [9]))])])].

#[warnings="-uniform-inheritance"]
Definition externals : SchedulerExternals := {|
  task_feature_vector := @task_feature_vector Demo.externals;
  robot_feature_vector := @robot_feature_vector Demo.externals;
  SchedulerNetwork_state_dict := model;
  SchedulerNetwork_forward := @SchedulerNetwork_forward Demo.externals;
  torch_load path :=
    if decide (path = "flat.pt") then Ok (PyDict flat)
    else if decide (path = "wrapped.pt") then Ok (PyDict wrapped)
    else if decide (path = "with_policy.pt") then Ok (PyDict with_policy)
    else Raise (OSError "No such file or directory");
  standard_normal := @standard_normal Demo.externals;
  Matcher := nat;
  CachedBipartiteMatcher := @CachedBipartiteMatcher Demo.externals;
  solve := @solve Demo.externals;
  filter_redundant_assignments := @filter_redundant_assignments Demo.externals;
  filter_overassignments := @filter_overassignments Demo.externals;
|}.

End CheckpointDemo.

(** * Properties *)

Section SchedulerProperties.
Context `{SchedulerExternals}.

(** ** Rules of the monad *)

Lemma wp_bind {A B} (c : M A) (k : A → M B) w Q :
  wp c w (λ r w1 evs1,
    match r with
    | Ok a => wp (k a) w1 (λ r2 w2 evs2, Q r2 w2 (evs1 ++ evs2))
    | Raise e => Q (Raise e) w1 evs1
    end) →
  wp (bind c k) w Q.
Proof.
  unfold wp, bind, result_of, world_of, events_of.
  destruct (c w) as [[[a|e] w1] evs1]; simpl; [|done].
  by destruct (k a w1) as [[r2 w2] evs2].
Qed.

Lemma wp_mono {A} (c : M A) w (Q Q' : Result A → World → list Event → Prop) :
  (∀ r w' evs, Q r w' evs → Q' r w' evs) → wp c w Q → wp c w Q'.
Proof. unfold wp. auto. Qed.

Lemma bind_ok {A B} (c : M A) (k : A → M B) w a w1 evs1 :
  c w = (Ok a, w1, evs1) →
  bind c k w = ((k a w1).1.1, (k a w1).1.2, evs1 ++ (k a w1).2).
Proof. unfold bind. intros ->. by destruct (k a w1) as [[??]?]. Qed.

Lemma bind_raise {A B} (c : M A) (k : A → M B) w e w1 evs1 :
  c w = (Raise e, w1, evs1) → bind c k w = (Raise e, w1, evs1).
Proof. unfold bind. by intros ->. Qed.

Lemma wp_ret {A} (a : A) w Q : Q (Ok a) w [] → wp (ret a) w Q.
Proof. done. Qed.
Lemma wp_raise {A} e w (Q : Result A → _) : Q (Raise e) w [] → wp (raise e) w Q.
Proof. done. Qed.
Lemma wp_get_sim w Q : Q (Ok (w_sim w)) w [] → wp get_sim w Q.
Proof. done. Qed.
Lemma wp_get_self w Q : Q (Ok (w_self w)) w [] → wp get_self w Q.
Proof. done. Qed.
Lemma wp_emit e w Q : Q (Ok tt) w [e] → wp (emit e) w Q.
Proof. done. Qed.
Lemma wp_put_self s w Q :
  Q (Ok tt) {| w_sim := w_sim w; w_self := s; w_generator := w_generator w |} [] →
  wp (put_self s) w Q.
Proof. done. Qed.
Lemma wp_next_generator_state w Q :
  Q (Ok (w_generator w))
    {| w_sim := w_sim w; w_self := w_self w; w_generator := S (w_generator w) |} [] →
  wp next_generator_state w Q.
Proof. done. Qed.
Lemma wp_lift_result {A} (r : Result A) w Q : Q r w [] → wp (lift_result r) w Q.
Proof. done. Qed.

Ltac wp_step :=
  lazymatch goal with
  | |- wp (bind _ _) _ _ => apply wp_bind
  | |- wp (ret _) _ _ => apply wp_ret
  | |- wp (raise _) _ _ => apply wp_raise
  | |- wp get_sim _ _ => apply wp_get_sim
  | |- wp get_self _ _ => apply wp_get_self
  | |- wp (emit _) _ _ => apply wp_emit
  | |- wp (put_self _) _ _ => apply wp_put_self
  | |- wp next_generator_state _ _ => apply wp_next_generator_state
  | |- wp (lift_result _) _ _ => apply wp_lift_result
  end;
  cbv beta iota.
Ltac wp_steps := repeat wp_step.


(** ** The end-game branch *)

Lemma incomplete_tasks_spec sim ref task :
  (ref, task) ∈ incomplete_tasks sim ↔
  tasks sim !! ref = Some task ∧ incomplete task = true ∧ status task = "PENDING".
Proof.
  unfold incomplete_tasks, indexed.
  rewrite list_elem_of_filter, elem_of_lookup_imap. simpl.
  rewrite andb_True, bool_decide_spec, Is_true_true. split.
  - intros [(Hi & Hs) (i & y & [= -> ->] & Hl)]. done.
  - intros (Hl & Hi & Hs). split; [done|]. by exists ref, task.
Qed.

Lemma incomplete_tasks_objects sim :
  (incomplete_tasks sim).*2 = filter pending_incomplete (tasks sim).
Proof.
  unfold incomplete_tasks, indexed.
  assert (Hsnd : ∀ i t, (@pair nat Task i t).2 = t) by done.
  revert Hsnd. generalize (@pair nat Task). intros f Hsnd.
  induction (tasks sim) as [|t ts IH] in f, Hsnd |- *; [done|].
  rewrite imap_cons, !filter_cons. rewrite Hsnd.
  assert (HS : ∀ i t, ((f ∘ S) i t).2 = t) by (intros; apply Hsnd).
  destruct (decide (Is_true _)) as [Ht|Ht], (decide (pending_incomplete t)) as [Hp|Hp].
  - by rewrite fmap_cons, Hsnd, (IH _ HS).
  - destruct Hp. apply andb_True in Ht as [Hi Hs]. split; [by apply Is_true_true|].
    by apply bool_decide_unpack in Hs.
  - destruct Ht. destruct Hp as [Hi Hs]. apply andb_True. split; [by apply Is_true_true|].
    by apply bool_decide_pack.
  - by apply IH.
Qed.

Lemma endgame_condition sim task :
  filter pending_incomplete (tasks sim) = [task] →
  ∃ task_ref, incomplete_tasks sim = [(task_ref, task)] ∧ tasks sim !! task_ref = Some task.
Proof.
  rewrite <- incomplete_tasks_objects. intros Hobj.
  destruct (incomplete_tasks sim) as [|[ref t] [|??]] eqn:Hinc; simplify_eq/=.
  exists ref. split; [done|].
  assert (Hin : (ref, task) ∈ incomplete_tasks sim) by (rewrite Hinc; apply list_elem_of_here).
  by apply incomplete_tasks_spec in Hin as (? & _).
Qed.

Lemma general_condition sim :
  length (filter pending_incomplete (tasks sim)) ≠ 1 ↔ length (incomplete_tasks sim) ≠ 1.
Proof. by rewrite <- incomplete_tasks_objects, length_fmap. Qed.

(** The loop over the available robots, started on a store whose robots are
    [done ++ rs] with the references of [rs] still to be visited. *)
Lemma for_each_send_to_task task_ref task (rs : list Robot) :
  ∀ (done : list Robot) (acc : gmap nat nat) (sim : Simulation) self g,
    robots sim = done ++ rs →
    for_each
      (filter (λ p, Is_true (available p.2)) (imap (λ i, pair (length done + i)) rs)).*1
      (send_to_task task_ref task) acc
      {| w_sim := sim; w_self := self; w_generator := g |}
    = (Ok (foldl (λ a r, <[robot_id r := task_id task]> a) acc
                 (filter (λ r, Is_true (available r)) rs)),
       {| w_sim := set_robots sim (done ++ map (mark_current_task task_ref) rs);
          w_self := self; w_generator := g |},
       []).
Proof.
  induction rs as [|r rs IH]; intros done acc sim self g Hrobots.
  - simpl. unfold ret. rewrite <- Hrobots. by destruct sim.
  - rewrite imap_cons. rewrite filter_cons. simpl.
    assert (Hshift : imap ((λ i, pair (length done + i)) ∘ S) rs
                     = imap (λ i, pair (length (done ++ [mark_current_task task_ref r]) + i)) rs).
    { apply imap_ext. intros i x _. simpl. rewrite length_app. simpl. f_equal. lia. }
    rewrite Hshift. rewrite (filter_cons _ r).
    destruct (decide (Is_true (available r))) as [Ha|Ha].
    + assert (Hmark : mark_current_task task_ref r = set_current_task r (Some task_ref)).
      { unfold mark_current_task. by rewrite (Is_true_true_1 _ Ha). }
      simpl. rewrite Nat.add_0_r.
      erewrite bind_ok; last first.
      { unfold send_to_task. erewrite bind_ok; last by unfold get_sim.
        simpl. rewrite Hrobots.
        rewrite list_lookup_middle by done.
        erewrite bind_ok; last by unfold put_sim. simpl. done. }
      simpl.
      rewrite IH; last first.
      { simpl. rewrite insert_app_r_alt by done. rewrite Nat.sub_diag. simpl.
        rewrite Hmark. by rewrite <- (assoc_L (++)). }
      simpl. rewrite <- (assoc_L (++)). simpl. done.
    + assert (Hmark : mark_current_task task_ref r = r).
      { unfold mark_current_task. destruct (available r); [by destruct Ha|done]. }
      rewrite IH; last first.
      { rewrite Hrobots, Hmark. by rewrite <- (assoc_L (++)). }
      rewrite <- (assoc_L (++)). simpl. done.
Qed.

Lemma available_robots_indexed sim :
  available_robots sim
  = (filter (λ p, Is_true (available p.2)) (imap (λ i, pair (length (@nil Robot) + i)) (robots sim))).*1.
Proof. done. Qed.

Lemma calculate_endgame w task_ref task :
  incomplete_tasks (w_sim w) = [(task_ref, task)] →
  calculate_robot_assignment w
  = (Ok (torch_zeros (length (robots (w_sim w))) (length (tasks (w_sim w))),
         {| robot_assignments :=
              foldl (λ a r, <[robot_id r := task_id task]> a) ∅
                    (filter (λ r, Is_true (available r)) (robots (w_sim w))) |}),
     {| w_sim := set_robots (w_sim w) (map (mark_current_task task_ref) (robots (w_sim w)));
        w_self := w_self w; w_generator := w_generator w |},
     []).
Proof.
  destruct w as [sim self g]. simpl.
  intros Hinc. unfold calculate_robot_assignment.
  erewrite bind_ok; last by unfold get_sim.
  simpl. rewrite Hinc. simpl.
  rewrite available_robots_indexed.
  erewrite bind_ok; last first.
  { apply (for_each_send_to_task task_ref task (robots sim) [] ∅ sim self g). done. }
  simpl. done.
Qed.

Lemma foldl_insert_lookup_available (tid : nat) (rs : list Robot) :
  ∀ (acc : gmap nat nat) r, r ∈ rs →
    foldl (λ a r, <[robot_id r := tid]> a) acc rs !! robot_id r = Some tid.
Proof.
  induction rs as [|x rs IH] using rev_ind; intros acc r Hin; [by apply elem_of_nil in Hin|].
  rewrite foldl_app. simpl.
  destruct (decide (robot_id x = robot_id r)) as [->|Hne]; [by rewrite lookup_insert_eq|].
  rewrite lookup_insert_ne by done.
  apply IH. apply elem_of_app in Hin as [Hin|Hin]; [done|].
  apply list_elem_of_singleton in Hin. by subst.
Qed.

Lemma foldl_insert_lookup_inv (tid : nat) (rs : list Robot) :
  ∀ (acc : gmap nat nat) k v,
    foldl (λ a r, <[robot_id r := tid]> a) acc rs !! k = Some v →
    acc !! k = Some v ∨ (v = tid ∧ ∃ r, r ∈ rs ∧ robot_id r = k).
Proof.
  induction rs as [|x rs IH] using rev_ind; intros acc k v; [by left|].
  rewrite foldl_app. simpl.
  destruct (decide (robot_id x = k)) as [<-|Hne].
  - rewrite lookup_insert_eq. intros [= <-]. right. split; [done|].
    exists x. split; [|done]. apply elem_of_app. right. by apply list_elem_of_singleton.
  - rewrite lookup_insert_ne by done. intros Hl.
    destruct (IH _ _ _ Hl) as [?|(-> & r & Hr & Hid)]; [by left|].
    right. split; [done|]. exists r. split; [|done]. apply elem_of_app. by left.
Qed.
(** ** Clamping and sentinel columns *)

Lemma clamp_min_floor c x : (c ≤ clamp_min c x)%Qc.
Proof.
  unfold clamp_min. destruct (decide (x < c)%Qc) as [Hlt|Hge]; [apply Qcle_refl|].
  by apply Qcnot_lt_le.
Qed.

Lemma clamp_min_id c x : (c ≤ x)%Qc → clamp_min c x = x.
Proof.
  intros Hle. unfold clamp_min. destruct (decide (x < c)%Qc) as [Hlt|Hge]; [|done].
  by apply Qcle_not_lt in Hle.
Qed.

Lemma torch_clamp_floor m : floor_clamped (torch_clamp m reward_floor).
Proof.
  unfold floor_clamped, torch_clamp.
  apply Forall_map, Forall_true. intros row. apply Forall_map, Forall_true. intros x.
  apply clamp_min_floor.
Qed.

Lemma torch_clamp_id m : floor_clamped m → torch_clamp m reward_floor = m.
Proof.
  unfold floor_clamped, torch_clamp. intros Hm.
  induction Hm as [|row m Hrow _ IH]; [done|]. simpl. f_equal; [|done].
  induction Hrow as [|x row Hx _ IHrow]; [done|]. simpl. f_equal; [|done].
  by apply clamp_min_id.
Qed.

Lemma torch_clamp_length m c : length (torch_clamp m c) = length m.
Proof. unfold torch_clamp. by rewrite length_map. Qed.

(** Concatenating the sentinel column on both sides frames every row. *)
Lemma torch_cat_dim1_columns n (m m' : Matrix) :
  torch_cat_dim1 (torch_column n sentinel_reward) m (torch_column n sentinel_reward) = Ok m' →
  length m = n ∧ m' = map (λ row, [sentinel_reward] ++ row ++ [sentinel_reward]) m.
Proof.
  unfold torch_cat_dim1, torch_column. rewrite length_replicate.
  destruct (decide _) as [[Hn _]|]; [|done]. intros [= <-]. split; [done|].
  subst n. induction m as [|row m IH]; [done|]. simpl. by f_equal.
Qed.

Lemma framed_rows_of_cat (m : Matrix) :
  floor_clamped m →
  Forall framed_row (map (λ row, [sentinel_reward] ++ row ++ [sentinel_reward]) m).
Proof.
  intros Hm. apply Forall_map. eapply Forall_impl; [exact Hm|].
  intros row Hrow. by exists row.
Qed.

(** ** The general branch *)

Lemma sample_rewards_spec m w :
  wp (sample_rewards m) w (λ r w' evs,
    w_sim w' = w_sim w ∧ evs = [] ∧
    (∀ m', r = Ok m' → floor_clamped m → floor_clamped m') ∧
    (∀ e, r = Raise e → raised_by_decision_point e = true)).
Proof.
  unfold sample_rewards. wp_steps.
  destruct (class (w_self w)) as [|stddev].
  - unfold SadcherScheduler_sample_rewards. wp_steps. split_and!; try done. by intros m' [= <-].
  - unfold StochasticILSadcherScheduler_sample_rewards, torch_normal.
    destruct (decide (stddev < 0)%Qc); wp_steps.
    + split_and!; try done. by intros e' [= <-].
    + simpl. split_and!; try done. intros m' [= <-] _. apply torch_clamp_floor.
Qed.

Lemma get_bipartite_matcher_spec w :
  wp get_bipartite_matcher w (λ r w' evs,
    w_sim w' = w_sim w ∧ matcher_inputs evs = [] ∧
    Forall (λ e, is_oracle_call e = false) evs ∧ is_ok r = true).
Proof.
  unfold get_bipartite_matcher. wp_steps.
  destruct (bipartite_matcher (w_self w)); wp_steps; simpl; repeat split; try done.
  by repeat constructor.
Qed.

Lemma debug_block_spec n raw pr w :
  wp (debug_block n raw pr) w (λ r w' evs,
    w' = w ∧ evs = [] ∧ ∀ e, r = Raise e → raised_by_decision_point e = true).
Proof.
  unfold debug_block. wp_steps. destruct (debug (w_self w)); [|by wp_steps].
  destruct (_ && _); wp_steps; [done|]. split_and!; try done. by intros e [= <-].
Qed.

Lemma torch_cat_dim1_raises a m b e :
  torch_cat_dim1 a m b = Raise e → raised_by_decision_point e = true.
Proof. unfold torch_cat_dim1. destruct (decide _); [done|]. by intros [= <-]. Qed.

Lemma calculate_general w :
  length (incomplete_tasks (w_sim w)) ≠ 1 →
  wp calculate_robot_assignment w (λ r w' evs,
    w_sim w' = w_sim w ∧
    Forall (Forall framed_row) (matcher_inputs evs) ∧
    (∃ rest,
       evs = OracleCall (extract_task_robot_features (w_self w) (w_sim w)).2
                        (extract_task_robot_features (w_self w) (w_sim w)).1
                        (task_adjacency (w_sim w)) :: rest ∧
       Forall (λ e, is_oracle_call e = false) rest) ∧
    (∀ m s, r = Ok (m, s) → matcher_inputs evs = [m]) ∧
    (∀ e, r = Raise e → raised_by_decision_point e = true)).
Proof.
  intros Hgeneral. unfold calculate_robot_assignment. wp_steps.
  destruct (decide _) as [|_]; [done|].
  wp_steps. unfold extract_task_robot_features. cbv beta iota zeta.
  unfold call_trained_model. wp_steps.
  eapply wp_mono; [|apply sample_rewards_spec].
  intros [sampled|e] w1 evs1 (Hsim1 & -> & Hclamped & Hraise); cbv beta iota; last first.
  { simpl. split_and!; try done.
    - exists []. split; [done|constructor].
    - intros e' [= <-]. by apply Hraise. }
  specialize (Hclamped sampled eq_refl (torch_clamp_floor _)).
  wp_step. wp_step.
  destruct (torch_cat_dim1 _ sampled _) as [predicted_reward|e] eqn:Hcat; last first.
  { simpl. split_and!; try done.
    - exists []. split; [done|constructor].
    - intros e' [= <-]. by eapply torch_cat_dim1_raises. }
  apply torch_cat_dim1_columns in Hcat as [Hlen Hpr].
  assert (Hframed : Forall framed_row predicted_reward).
  { subst predicted_reward. by apply framed_rows_of_cat. }
  clear Hpr.
  wp_step. wp_step.
  destruct (torch_cat_dim1 _ _ _) as [predicted_reward_raw|e] eqn:Hcat; last first.
  { simpl. split_and!; try done.
    - exists []. split; [done|constructor].
    - intros e' [= <-]. by eapply torch_cat_dim1_raises. }
  wp_step.
  eapply wp_mono; [|apply debug_block_spec].
  intros [[]|e] w2 evs2 (-> & -> & Hdebug); cbv beta iota; last first.
  { simpl. split_and!; try done.
    - exists []. split; [done|constructor].
    - intros e' [= <-]. by apply Hdebug. }
  wp_step.
  eapply wp_mono; [|apply get_bipartite_matcher_spec].
  intros [matcher|e] w3 evs3 (Hsim3 & Hin3 & Hor3 & Hok3); [|done]. cbv beta iota.
  unfold bipartite_matcher_solve. wp_steps. simpl.
  split; [congruence|].
  assert (Hinputs : matcher_inputs (evs3 ++ [MatcherSolve predicted_reward])
                    = [predicted_reward]).
  { unfold matcher_inputs in *. rewrite omap_app, Hin3. done. }
  rewrite Hinputs. split_and!.
  - by repeat constructor.
  - eexists. split; [done|]. apply Forall_app. split; [done|]. by repeat constructor.
  - by intros m s [= <- _].
  - done.
Qed.

Lemma endgame_or_general sim :
  (∃ task_ref task, incomplete_tasks sim = [(task_ref, task)]) ∨
  length (incomplete_tasks sim) ≠ 1.
Proof.
  destruct (incomplete_tasks sim) as [|[ref t] [|??]]; [by right| |by right].
  left. by exists ref, t.
Qed.

Lemma mark_current_task_frame task_ref (rs : list Robot) :
  Forall2 (λ r r', robot_id r' = robot_id r ∧ available r' = available r)
          rs (map (mark_current_task task_ref) rs).
Proof.
  induction rs as [|r rs IH]; simpl.
  - apply Forall2_nil_2.
  - apply Forall2_cons_2; [|done].
    unfold mark_current_task. by destruct (available r) eqn:Ha.
Qed.

(** ** The claims about [calculate_robot_assignment] *)

(** C1 (amended). When exactly one task of the snapshot is both incomplete
    and PENDING, [calculate_robot_assignment] returns normally, assigns every
    available robot (and no other robot) to that task, and makes no call to
    the trained model or to the matcher: no matcher is built and none is
    asked to solve. *)
Theorem endgame_assigns_available_robots (w : World) (task : Task) :
  filter pending_incomplete (tasks (w_sim w)) = [task] →
  ∃ reward schedule,
    result_of (calculate_robot_assignment w) = Ok (reward, schedule) ∧
    (∀ robot, robot ∈ robots (w_sim w) → available robot = true →
       robot_assignments schedule !! robot_id robot = Some (task_id task)) ∧
    (∀ id t, robot_assignments schedule !! id = Some t →
       t = task_id task ∧
       ∃ robot, robot ∈ robots (w_sim w) ∧ available robot = true ∧ robot_id robot = id) ∧
    events_of (calculate_robot_assignment w) = [] ∧
    w_self (world_of (calculate_robot_assignment w)) = w_self w.
Proof.
  intros Hone. destruct (endgame_condition _ _ Hone) as (task_ref & Hinc & _).
  rewrite (calculate_endgame w task_ref task Hinc). simpl.
  eexists _, _. split; [done|]. simpl. split_and!; try done.
  - intros robot Hin Ha. apply foldl_insert_lookup_available.
    apply list_elem_of_filter. split; [by apply Is_true_true|done].
  - intros id t Hl.
    apply foldl_insert_lookup_inv in Hl as [?|(-> & robot & Hin & Hid)]; [done|].
    split; [done|]. apply list_elem_of_filter in Hin as [Ha Hin]. exists robot.
    split; [done|]. split; [by apply Is_true_true|done].
Qed.

(** C2 (amended). [calculate_robot_assignment] never changes a task, the
    clock, or the identity and availability of a robot. In the general branch
    it leaves the whole simulation as it found it, also when it raises. In
    the end-game branch it writes the remaining task into the current-task
    link of every available robot, before the schedule is returned and hence
    before [assign_tasks_to_robots] sees it. *)
Theorem calculate_robot_assignment_frame (w : World) :
  let sim' := w_sim (world_of (calculate_robot_assignment w)) in
  sim' = set_robots (w_sim w) (robots sim') ∧
  Forall2 (λ r r', robot_id r' = robot_id r ∧ available r' = available r)
          (robots (w_sim w)) (robots sim') ∧
  (length (filter pending_incomplete (tasks (w_sim w))) ≠ 1 → sim' = w_sim w) ∧
  (∀ task, filter pending_incomplete (tasks (w_sim w)) = [task] →
     ∃ task_ref, tasks (w_sim w) !! task_ref = Some task ∧
                 robots sim' = map (mark_current_task task_ref) (robots (w_sim w))).
Proof.
  destruct (endgame_or_general (w_sim w)) as [(task_ref & task & Hinc)|Hgen].
  - rewrite (calculate_endgame w task_ref task Hinc). simpl. split_and!.
    + done.
    + apply mark_current_task_frame.
    + intros Hne. apply general_condition in Hne. by rewrite Hinc in Hne.
    + intros task' Hone. destruct (endgame_condition _ _ Hone) as (ref' & Hinc' & Hlookup).
      rewrite Hinc in Hinc'. simplify_eq. by exists ref'.
  - pose proof (calculate_general w Hgen) as (Hsim & _). cbv zeta.
    rewrite Hsim. split_and!.
    + by destruct (w_sim w).
    + by apply Forall_Forall2_diag, Forall_true.
    + done.
    + intros task Hone. apply general_condition in Hgen. by rewrite Hone in Hgen.
Qed.
Lemma py_slice_inner {A} (first last : A) (mid : list A) :
  py_slice ([first] ++ mid ++ [last]) 1 (-1) = mid.
Proof.
  unfold py_slice, py_index.
  destruct (decide (1 < 0)%Z), (decide (-1 < 0)%Z); try lia.
  rewrite !length_app. cbn [length].
  replace ((1 + (length mid + 1)) `min` Z.to_nat 1) with 1 by lia.
  replace (Z.to_nat (0 `max` (Z.of_nat (1 + (length mid + 1)) + -1)) - 1)
    with (length mid) by lia.
  cbn [app drop]. by rewrite drop_0, take_app_length.
Qed.

Lemma py_slice_1_m2 {A} (first a b : A) (mid : list A) :
  py_slice (first :: mid ++ [a; b]) 1 (-2) = mid.
Proof.
  unfold py_slice, py_index.
  destruct (decide (1 < 0)%Z), (decide (-2 < 0)%Z); try lia.
  cbn [length]. rewrite !length_app. cbn [length].
  replace (S (length mid + 2) `min` Z.to_nat 1) with 1 by lia.
  replace (Z.to_nat (0 `max` (Z.of_nat (S (length mid + 2)) + -2)) - 1)
    with (length mid) by lia.
  cbn [drop]. by rewrite drop_0, take_app_length.
Qed.

Lemma py_slice_1_m2_short {A} (l : list A) : length l ≤ 3 → py_slice l 1 (-2) = [].
Proof.
  intros Hlen. unfold py_slice, py_index.
  destruct (decide (1 < 0)%Z), (decide (-2 < 0)%Z); try lia.
  destruct l as [|x l]; [done|]. cbn [length] in *.
  replace (S (length l) `min` Z.to_nat 1) with 1 by lia.
  replace (Z.to_nat (0 `max` (Z.of_nat (S (length l)) + -2)) - 1) with 0 by lia.
  done.
Qed.

Lemma framed_row_non_sentinel row :
  framed_row row → Forall (λ x, (reward_floor ≤ x)%Qc) (non_sentinel_entries row).
Proof.
  intros (mid & -> & Hmid). unfold non_sentinel_entries. by rewrite py_slice_inner.
Qed.

Lemma framed_row_sentinel_columns row :
  framed_row row → sentinel_columns row = (Some sentinel_reward, Some sentinel_reward).
Proof.
  intros (mid & -> & _). unfold sentinel_columns. f_equal.
  by rewrite (assoc_L (++)), last_snoc.
Qed.

Lemma reward_floor_positive : (0 < reward_floor)%Qc.
Proof. done. Qed.

Lemma sentinel_reward_negative : (sentinel_reward < 0)%Qc.
Proof. done. Qed.

Lemma calculate_matcher_inputs_framed w :
  Forall (Forall framed_row) (matcher_inputs (events_of (calculate_robot_assignment w))).
Proof.
  destruct (endgame_or_general (w_sim w)) as [(task_ref & task & Hinc)|Hgen].
  - rewrite (calculate_endgame w task_ref task Hinc). constructor.
  - by pose proof (calculate_general w Hgen) as (_ & Hframed & _).
Qed.


(** C6 (amended). Every reward matrix handed to the matcher carries
    [-1000], a negative value, in its first and in its last column for every
    robot, and so does the matrix returned by the general branch, which is
    the one the matcher received. The matrix returned by the end-game branch
    is all zeros; no matrix is handed to the matcher there. *)
Theorem sentinel_columns_of_reward_matrices (w : World) :
  let out := calculate_robot_assignment w in
  (sentinel_reward < 0)%Qc ∧
  Forall (Forall (λ row, sentinel_columns row = (Some sentinel_reward, Some sentinel_reward)))
         (matcher_inputs (events_of out)) ∧
  (length (filter pending_incomplete (tasks (w_sim w))) ≠ 1 →
   ∀ reward schedule, result_of out = Ok (reward, schedule) →
     matcher_inputs (events_of out) = [reward] ∧
     Forall (λ row, sentinel_columns row = (Some sentinel_reward, Some sentinel_reward)) reward) ∧
  (length (filter pending_incomplete (tasks (w_sim w))) = 1 →
   ∃ schedule,
     result_of out = Ok (torch_zeros (length (robots (w_sim w))) (length (tasks (w_sim w))),
                         schedule) ∧
     matcher_inputs (events_of out) = []).
Proof.
  cbv zeta. split; [apply sentinel_reward_negative|].
  assert (Hinputs : Forall (Forall (λ row, sentinel_columns row
                                           = (Some sentinel_reward, Some sentinel_reward)))
                           (matcher_inputs (events_of (calculate_robot_assignment w)))).
  { eapply Forall_impl; [apply calculate_matcher_inputs_framed|].
    intros m Hm. eapply Forall_impl; [exact Hm|]. apply framed_row_sentinel_columns. }
  split; [done|]. split.
  - intros Hgen reward schedule Hres. apply general_condition in Hgen.
    pose proof (calculate_general w Hgen) as (_ & _ & _ & Hret & _).
    specialize (Hret reward schedule Hres). split; [done|].
    rewrite Hret in Hinputs. by rewrite Forall_singleton in Hinputs.
  - intros Hone.
    destruct (endgame_or_general (w_sim w)) as [(task_ref & task & Hinc)|Hgen].
    + rewrite (calculate_endgame w task_ref task Hinc). eexists. split; reflexivity.
    + apply general_condition in Hgen. done.
Qed.

(** C7 (amended). Task features are extracted for the tasks of
    [sim.tasks[1:-2]]: every task except the first one and the last two, and
    for no task when there are at most three. Robot features are extracted
    for every robot. *)
Theorem features_of_sliced_tasks (self : SadcherScheduler) (sim : Simulation) :
  (extract_task_robot_features self sim).2
  = map (λ robot, robot_feature_vector robot (self_location_normalization self)
                                       (self_duration_normalization self)) (robots sim) ∧
  (∀ first mid a b, tasks sim = first :: mid ++ [a; b] →
     (extract_task_robot_features self sim).1
     = map (λ task, task_feature_vector task (self_location_normalization self)
                                        (self_duration_normalization self)) mid) ∧
  (length (tasks sim) ≤ 3 → (extract_task_robot_features self sim).1 = []).
Proof.
  unfold extract_task_robot_features. simpl. split; [done|]. split.
  - intros first mid a b ->. by rewrite py_slice_1_m2.
  - intros Hlen. by rewrite py_slice_1_m2_short.
Qed.

Lemma imap_id_ext {A} (f : nat → A → A) (l : list A) :
  (∀ i x, f i x = x) → imap f l = l.
Proof.
  intros Hf. induction l as [|x l IH] in f, Hf |- *; [done|].
  rewrite imap_cons, Hf. f_equal. apply IH. intros i y. apply Hf.
Qed.

Lemma torch_normal_zero_spread m w :
  torch_normal m 0%Qc w
  = (Ok m, {| w_sim := w_sim w; w_self := w_self w; w_generator := S (w_generator w) |}, []).
Proof.
  unfold torch_normal. destruct (decide (0 < 0)%Qc) as [Hlt|_]; [done|].
  unfold bind, next_generator_state, ret. cbn [fst snd]. do 3 f_equal.
  apply imap_id_ext. intros i row. apply imap_id_ext. intros j x.
  by rewrite Qcmult_0_r, Qcplus_0_l.
Qed.

Lemma stochastic_sample_rewards_zero_spread m w :
  floor_clamped m →
  StochasticILSadcherScheduler_sample_rewards 0%Qc m w
  = (Ok m, {| w_sim := w_sim w; w_self := w_self w; w_generator := S (w_generator w) |}, []).
Proof.
  intros Hm. unfold StochasticILSadcherScheduler_sample_rewards.
  erewrite bind_ok; [|apply torch_normal_zero_spread].
  unfold ret. cbn [fst snd app]. by rewrite torch_clamp_id.
Qed.

Lemma call_trained_model_run rf tf adj w :
  call_trained_model rf tf adj w
  = (Ok (SchedulerNetwork_forward (trained_model (w_self w)) rf tf adj), w,
     [OracleCall rf tf adj]).
Proof. done. Qed.

Lemma calculate_zero_spread (w : World) :
  let stochastic := calculate_robot_assignment (with_class w (StochasticIL 0%Qc)) in
  let base := calculate_robot_assignment (with_class w SadcherBase) in
  result_of stochastic = result_of base ∧
  events_of stochastic = events_of base ∧
  w_sim (world_of stochastic) = w_sim (world_of base).
Proof.
  cbv zeta.
  destruct (endgame_or_general (w_sim w)) as [(task_ref & task & Hinc)|Hgen].
  - by rewrite (calculate_endgame (with_class w (StochasticIL 0%Qc)) task_ref task Hinc),
      (calculate_endgame (with_class w SadcherBase) task_ref task Hinc).
  - set (ws := with_class w (StochasticIL 0%Qc)).
    set (wb := with_class w SadcherBase).
    unfold calculate_robot_assignment.
    erewrite (bind_ok _ _ ws); [|by unfold get_sim].
    erewrite (bind_ok _ _ wb); [|by unfold get_sim].
    cbn [fst snd app]. change (w_sim ws) with (w_sim w). change (w_sim wb) with (w_sim w).
    destruct (decide _) as [|_]; [done|].
    erewrite (bind_ok _ _ ws); [|by unfold get_self].
    erewrite (bind_ok _ _ wb); [|by unfold get_self].
    unfold extract_task_robot_features. cbv beta iota zeta.
    cbn [fst snd app].
    erewrite (bind_ok _ _ ws); [|apply call_trained_model_run].
    erewrite (bind_ok _ _ wb); [|apply call_trained_model_run].
    cbn [fst snd app].
    change (trained_model (w_self ws)) with (trained_model (w_self w)).
    change (trained_model (w_self wb)) with (trained_model (w_self w)).
    change (self_location_normalization (w_self ws)) with (self_location_normalization (w_self w)).
    change (self_location_normalization (w_self wb)) with (self_location_normalization (w_self w)).
    change (self_duration_normalization (w_self ws)) with (self_duration_normalization (w_self w)).
    change (self_duration_normalization (w_self wb)) with (self_duration_normalization (w_self w)).
    set (raw := SchedulerNetwork_forward _ _ _ _).
    erewrite (bind_ok (sample_rewards _) _ ws); last first.
    { unfold sample_rewards. erewrite bind_ok; [|by unfold get_self].
      cbn [fst snd app]. change (class (w_self ws)) with (StochasticIL 0%Qc). cbv iota.
      rewrite stochastic_sample_rewards_zero_spread by apply torch_clamp_floor. done. }
    erewrite (bind_ok (sample_rewards _) _ wb); last first.
    { unfold sample_rewards. erewrite bind_ok; [|by unfold get_self]. done. }
    cbn [fst snd app].
    unfold lift_result, result_of, world_of, events_of.
    unfold debug_block, get_bipartite_matcher, bipartite_matcher_solve, bind, get_self,
      get_sim, put_self, emit, ret, raise.
    destruct (torch_cat_dim1 _ (torch_clamp raw reward_floor) _) as [pr|e]; [|done].
    destruct (torch_cat_dim1 _ raw _) as [pr_raw|e]; [|done].
    subst ws wb. unfold with_class.
    cbn [fst snd app w_sim w_self debug bipartite_matcher].
    destruct (debug (w_self w)); [destruct (_ && _)|];
      destruct (bipartite_matcher (w_self w)); done.
Qed.
(** C9. On a reward matrix whose entries are all at least the floor,
    [StochasticILSadcherScheduler.sample_rewards] with spread 0 returns the
    matrix unchanged, which is what [SadcherScheduler.sample_rewards] returns;
    neither touches the simulation or the scheduler or makes a call. The two
    classes share every other step: a whole decision point run by a
    stochastic scheduler of spread 0 returns the same reward matrix and
    schedule, makes the same calls and leaves the same simulation as the one
    run by the base scheduler. *)
Theorem zero_spread_reproduces_reward (m : Matrix) (w : World) :
  floor_clamped m →
  let stochastic := StochasticILSadcherScheduler_sample_rewards 0%Qc m w in
  let base := SadcherScheduler_sample_rewards m w in
  let stochastic_run := calculate_robot_assignment (with_class w (StochasticIL 0%Qc)) in
  let base_run := calculate_robot_assignment (with_class w SadcherBase) in
  result_of stochastic = Ok m ∧ result_of base = Ok m ∧
  w_sim (world_of stochastic) = w_sim w ∧ w_self (world_of stochastic) = w_self w ∧
  events_of stochastic = [] ∧ world_of base = w ∧ events_of base = [] ∧
  result_of stochastic_run = result_of base_run ∧
  events_of stochastic_run = events_of base_run ∧
  w_sim (world_of stochastic_run) = w_sim (world_of base_run).
Proof.
  intros Hm. cbv zeta. rewrite stochastic_sample_rewards_zero_spread by done.
  unfold SadcherScheduler_sample_rewards, ret.
  pose proof (calculate_zero_spread w) as (? & ? & ?).
  by destruct w.
Qed.

End SchedulerProperties.


Lemma endgame_assigns_available_robots_witness :
  ∃ reward schedule,
    result_of (@calculate_robot_assignment Demo.externals
                 (Demo.world Demo.endgame_sim SadcherBase)) = Ok (reward, schedule) ∧
    robot_assignments schedule !! 0 = Some 2 ∧
    robot_assignments schedule !! 1 = None ∧
    robot_assignments schedule !! 2 = Some 2.
Proof.
  destruct (@endgame_assigns_available_robots Demo.externals
              (Demo.world Demo.endgame_sim SadcherBase) (Demo.pending_task 2))
    as (reward & schedule & Hres & Hall & Honly & _); [reflexivity|].
  exists reward, schedule. split; [exact Hres|]. split; [|split].
  - apply (Hall (Demo.idle_robot 0)); [|reflexivity]. apply list_elem_of_here.
  - destruct (robot_assignments schedule !! 1) as [t|] eqn:Hl; [|reflexivity].
    exfalso. destruct (Honly 1 t Hl) as (_ & robot & Hin & Ha & Hid).
    unfold Demo.endgame_sim, Demo.snapshot in Hin. simpl in Hin.
    set_unfold in Hin. destruct Hin as [->|[->|[->|[]]]]; simplify_eq/=.
  - apply (Hall (Demo.idle_robot 2)); [|reflexivity].
    do 2 apply list_elem_of_further. apply list_elem_of_here.
Defined.

(** With exactly one incomplete task that is not PENDING, the trained model
    and the matcher are called. *)
Lemma endgame_needs_pending_counterexample :
  let w := Demo.world Demo.last_task_active_sim SadcherBase in
  filter (λ task, incomplete task = true) (tasks (w_sim w)) = [Demo.active_task 2] ∧
  existsb is_oracle_call (events_of (@calculate_robot_assignment Demo.externals w)) = true ∧
  existsb is_matcher_call (events_of (@calculate_robot_assignment Demo.externals w)) = true.
Proof. vm_compute. done. Qed.

Lemma calculate_robot_assignment_frame_witness :
  let w := Demo.world Demo.midgame_sim (StochasticIL 1%Qc) in
  w_sim (world_of (@calculate_robot_assignment Demo.externals w)) = w_sim w.
Proof.
  apply (@calculate_robot_assignment_frame Demo.externals
           (Demo.world Demo.midgame_sim (StochasticIL 1%Qc))).
  vm_compute. lia.
Defined.

(** The end-game branch writes the current-task link of the available robot
    before anything is committed. *)
Lemma calculate_robot_assignment_mutates_counterexample :
  let w := Demo.world Demo.endgame_sim SadcherBase in
  let w' := world_of (@calculate_robot_assignment Demo.externals w) in
  current_task <$> robots (w_sim w) !! 0 = Some None ∧
  current_task <$> robots (w_sim w') !! 0 = Some (Some 2) ∧
  w_sim w' ≠ w_sim w.
Proof. vm_compute. split_and!; [done..|]. intros [=]. Qed.

(** The matrix that the end-game branch returns has 0, which is not
    negative, in its first and last column. *)
Lemma sentinel_columns_counterexample :
  let w := Demo.world Demo.endgame_sim SadcherBase in
  ∃ reward schedule,
    result_of (@calculate_robot_assignment Demo.externals w) = Ok (reward, schedule) ∧
    reward !! 0 = Some [0%Qc; 0%Qc; 0%Qc] ∧
    ¬ Forall (λ row, ∃ first last, sentinel_columns row = (Some first, Some last) ∧
                                   (first < 0)%Qc ∧ (last < 0)%Qc) reward.
Proof.
  eexists _, _. split; [vm_compute; reflexivity|]. split; [reflexivity|].
  intros Hall. apply Forall_cons in Hall as [(first & last & Hcols & Hfirst & _) _].
  injection Hcols as <- _. by apply Qclt_not_le in Hfirst.
Qed.

Lemma sentinel_columns_of_reward_matrices_witness :
  let out := @calculate_robot_assignment Demo.externals
               (Demo.world Demo.midgame_sim SadcherBase) in
  ∃ reward schedule,
    result_of out = Ok (reward, schedule) ∧
    matcher_inputs (events_of out) = [reward] ∧
    Forall (λ row, sentinel_columns row = (Some sentinel_reward, Some sentinel_reward)) reward.
Proof.
  cbv zeta.
  pose proof (@sentinel_columns_of_reward_matrices Demo.externals
                (Demo.world Demo.midgame_sim SadcherBase)) as (_ & _ & Hgeneral & _).
  eexists _, _. split; [by vm_compute|].
  eapply Hgeneral; [vm_compute; lia | by vm_compute].
Defined.

Lemma features_of_sliced_tasks_witness :
  (@extract_task_robot_features Demo.externals (Demo.scheduler SadcherBase)
     Demo.midgame_sim).1
  = [[Demo.qc 1]].
Proof.
  pose proof (@features_of_sliced_tasks Demo.externals (Demo.scheduler SadcherBase)
                Demo.midgame_sim) as (_ & Hsliced & _).
  apply (Hsliced (Demo.done_task 0) [Demo.pending_task 1]
                 (Demo.pending_task 2) (Demo.pending_task 3)).
  reflexivity.
Defined.

(** With the sentinels first and last, tasks 1 and 2 of the four are not
    sentinels, and task 2 gets no feature vector. *)
Lemma features_exclude_sentinels_counterexample :
  let self := Demo.scheduler SadcherBase in
  let sim := Demo.midgame_sim in
  py_slice (tasks sim) 1 (-1) = [Demo.pending_task 1; Demo.pending_task 2] ∧
  (@extract_task_robot_features Demo.externals self sim).1
  ≠ map (λ task, @task_feature_vector Demo.externals task
                   (self_location_normalization self) (self_duration_normalization self))
        (py_slice (tasks sim) 1 (-1)).
Proof. split; [reflexivity|]. vm_compute. intros [=]. Qed.

Lemma zero_spread_reproduces_reward_witness :
  let m := [[reward_floor; 1%Qc]; [Demo.qc 3; Demo.qc 7]] in
  let w := Demo.world Demo.midgame_sim (StochasticIL 0%Qc) in
  result_of (@StochasticILSadcherScheduler_sample_rewards Demo.externals 0%Qc m w) = Ok m.
Proof.
  apply (@zero_spread_reproduces_reward Demo.externals
           [[reward_floor; 1%Qc]; [Demo.qc 3; Demo.qc 7]]
           (Demo.world Demo.midgame_sim (StochasticIL 0%Qc))).
  repeat constructor; by vm_compute.
Defined.


Section DriverProperties.
Context `{DriverExternals}.

(** ** The benchmark loop *)

Lemma check_keywords_model_name :
  check_keywords "create_scheduler" create_scheduler_parameters run_one_simulation_keywords
  = Raise (TypeError "create_scheduler() got an unexpected keyword argument 'model_name'").
Proof. reflexivity. Qed.

Lemma construct_scheduler_raises sim scheduler_name checkpoint_path :
  construct_scheduler sim scheduler_name checkpoint_path
  = Raise (TypeError "create_scheduler() got an unexpected keyword argument 'model_name'").
Proof. unfold construct_scheduler. by rewrite check_keywords_model_name. Qed.

(** The guard of lines 53 to 57, once the loop is entered: a decision point
    after which the clock is past the bound ends the run with the bound as
    makespan and [feasible = False]. *)
Lemma simulation_loop_infeasible fuel worst_case st st' :
  sim_done (run_sim st) = false →
  decision_point st = (Ok tt, st') →
  (worst_case < timestep (run_sim st'))%Qc →
  simulation_loop (S fuel) worst_case st
  = Some (Ok (worst_case, false, current_run_computation_times st')).
Proof.
  intros Hdone Hpoint Hlate. simpl. rewrite Hdone, Hpoint.
  by destruct (decide _).
Qed.

(** Whenever the loop reports [feasible = False], the makespan it reports is
    the bound. *)
Lemma simulation_loop_infeasible_makespan fuel worst_case :
  ∀ st makespan times,
    simulation_loop fuel worst_case st = Some (Ok (makespan, false, times)) →
    makespan = worst_case.
Proof.
  induction fuel as [|fuel IH]; intros st makespan times; simpl.
  - by destruct (sim_done (run_sim st)).
  - destruct (sim_done (run_sim st)); [done|].
    destruct (decision_point st) as [[[]|e] st']; [|done].
    destruct (decide _); [|by apply IH].
    by intros [= <- _].
Qed.
(** As the call is written, [run_one_simulation] does not reach its loop: whatever
    the problem instance, the scheduler name, the checkpoint and the number
    of decision points allowed, the call ends with an exception, and when the
    bound and the simulation have been built that exception is the
    [TypeError] of the call of [create_scheduler], which is given the keyword
    [model_name] that it does not declare. *)
Theorem run_one_simulation_raises (fuel : nat) (problem_instance : ProblemInstance)
    (scheduler_name : string) (checkpoint_path : PyArg) (generator : nat) :
  (∃ e, run_one_simulation fuel problem_instance scheduler_name checkpoint_path generator
        = Some (Raise e)) ∧
  (is_ok (worst_case_makespan problem_instance) = true →
   is_ok (Simulation_init problem_instance scheduler_name) = true →
   run_one_simulation fuel problem_instance scheduler_name checkpoint_path generator
   = Some (Raise (TypeError
                    "create_scheduler() got an unexpected keyword argument 'model_name'"))).
Proof.
  unfold run_one_simulation.
  destruct (worst_case_makespan problem_instance) as [worst_case|e];
    [|split; [eauto|done]].
  destruct (Simulation_init problem_instance scheduler_name) as [sim|e];
    [|split; [eauto|done]].
  rewrite construct_scheduler_raises. eauto.
Qed.

(** ** The contract of [calculate_robot_assignment] *)

(** C4 (amended). [calculate_robot_assignment] of a [SadcherScheduler], of
    either class, returns a pair of the reward matrix and the Instantaneous
    Schedule, not a schedule. [run_one_simulation] tells the two shapes apart
    with [isinstance(scheduler, SadcherScheduler)]: for an object of that
    class it unpacks the pair and keeps the schedule, for any other object it
    takes the returned value itself as the schedule. *)
Theorem sadcher_returns_reward_and_schedule (self : SadcherScheduler) (st : Run) :
  let world := {| w_sim := run_sim st; w_self := self; w_generator := run_generator st |} in
  let returned :=
    (call_calculate_robot_assignment (SadcherObject self) (run_sim st) (run_generator st)).1.1.1 in
  returned
  = result_map (λ p, VTuple (VTensor p.1) (VSchedule p.2))
               (result_of (calculate_robot_assignment world)) ∧
  (∀ schedule, returned ≠ Ok (VSchedule schedule)) ∧
  (run_scheduler st = SadcherObject self →
   (decide_schedule st).1 = result_map snd (result_of (calculate_robot_assignment world))) ∧
  (∀ other, run_scheduler st = OtherObject other →
     other_isinstance_SadcherScheduler other = false →
     (decide_schedule st).1
     = result_bind (other_calculate_robot_assignment other (run_sim st)).1.1 as_schedule).
Proof.
  cbv zeta. unfold call_calculate_robot_assignment, decide_schedule.
  split_and!.
  - by destruct (calculate_robot_assignment _) as [[r w] evs].
  - intros schedule. by destruct (calculate_robot_assignment _) as [[[[m s]|e] w] evs].
  - intros ->. unfold call_calculate_robot_assignment. simpl.
    by destruct (calculate_robot_assignment _) as [[[[m s]|e] w] evs].
  - intros other -> Hother. unfold call_calculate_robot_assignment. simpl. rewrite Hother.
    destruct (other_calculate_robot_assignment _ _) as [[[v|e] o] sim]; simpl; [|done].
    by destruct (as_schedule v).
Qed.

(** ** Configuration errors *)




End DriverProperties.


(** A checkpoint whose layers match is loaded; layers that are unknown to
    the network or of another shape are skipped without an exception. *)
Example matching_layers_are_loaded :
  result_map (@trained_model Demo.externals)
    (@SadcherScheduler_init Demo.externals false (PyStr "model.pt") (Demo.qc 100) (Demo.qc 100))
  = Ok [("encoder.weight", {| tensor_size := [2]; tensor_data := [Demo.qc 3; Demo.qc 4] |})].
Proof. by vm_compute. Qed.

Example mismatching_layers_are_skipped :
  result_map (@trained_model Demo.externals)
    (@SadcherScheduler_init Demo.externals false (PyStr "other_model.pt")
       (Demo.qc 100) (Demo.qc 100))
  = Ok (@SchedulerNetwork_state_dict Demo.externals).
Proof. by vm_compute. Qed.

Lemma run_one_simulation_raises_witness :
  @run_one_simulation Demo.externals Demo.driver 10 Demo.problem "greedy" PyNone 0
  = Some (Raise (TypeError
                   "create_scheduler() got an unexpected keyword argument 'model_name'")).
Proof.
  apply (@run_one_simulation_raises Demo.externals Demo.driver 10 Demo.problem "greedy"
           PyNone 0); reflexivity.
Defined.

(** Entered with a scheduler that exists, the loop does stop at the bound:
    the bound of the problem is 9, the clock reads 10 after one decision
    point. *)
Example loop_guard_caps_makespan :
  @worst_case_makespan Demo.problem = Ok (Demo.qc 9) ∧
  @simulation_loop Demo.externals Demo.driver 3 (Demo.qc 9) (Demo.run Demo.greedy_object)
  = Some (Ok (Demo.qc 9, false, [Demo.qc 1])).
Proof. split; by vm_compute. Qed.

Lemma sadcher_returns_reward_and_schedule_witness :
  (@decide_schedule Demo.externals Demo.driver
     (Demo.run (Demo.sadcher_object SadcherBase))).1
  = result_map snd
      (result_of (@calculate_robot_assignment Demo.externals
                    (Demo.world Demo.midgame_sim SadcherBase))) ∧
  (@decide_schedule Demo.externals Demo.driver (Demo.run Demo.greedy_object)).1
  = Ok {| robot_assignments := ∅ |}.
Proof.
  split.
  - pose proof (@sadcher_returns_reward_and_schedule Demo.externals Demo.driver
                  (Demo.scheduler SadcherBase)
                  (Demo.run (Demo.sadcher_object SadcherBase)))
      as (_ & _ & Hdispatch & _).
    apply Hdispatch. reflexivity.
  - pose proof (@sadcher_returns_reward_and_schedule Demo.externals Demo.driver
                  (Demo.scheduler SadcherBase) (Demo.run Demo.greedy_object))
      as (_ & _ & _ & Hother).
    rewrite (Hother tt); reflexivity.
Defined.

(** The value returned by a [SadcherScheduler] is a pair, while a scheduler
    of another class returns the schedule itself. *)
Lemma uniform_schedule_contract_counterexample :
  (¬ ∃ schedule,
      (@call_calculate_robot_assignment Demo.externals Demo.driver
         (Demo.sadcher_object SadcherBase) Demo.endgame_sim 0).1.1.1
      = Ok (VSchedule schedule)) ∧
  (∃ schedule,
      (@call_calculate_robot_assignment Demo.externals Demo.driver
         Demo.greedy_object Demo.endgame_sim 0).1.1.1
      = Ok (VSchedule schedule)).
Proof.
  split.
  - intros [schedule Hs]. vm_compute in Hs. discriminate Hs.
  - by eexists.
Qed.

(** ** The assignment filters *)

Section FilterProperties.
Variable capacity : Simulation → nat → nat.
Variable reward : Simulation → nat → nat → Qc.

Lemma filter_all {B} (Q : B → Prop) `{∀ x, Decision (Q x)} (l : list B) :
  Forall Q l → filter Q l = l.
Proof.
  induction 1 as [|x l Hx _ IH]; [done|].
  by rewrite filter_cons, decide_True, IH.
Qed.

Lemma claimed_by_lower_filter (Q : (nat * nat) * Qc → Prop) `{∀ x, Decision (Q x)}
    (solution : Solution) robot task :
  Filtering.claimed_by_lower (filter Q solution) robot task →
  Filtering.claimed_by_lower solution robot task.
Proof.
  unfold Filtering.claimed_by_lower. rewrite !Exists_exists.
  intros (e & He & Hp). exists e. split; [|done].
  by apply list_elem_of_filter in He as [_ ?].
Qed.

Lemma length_filter_filter {B} (R Q : B → Prop) `{∀ x, Decision (R x)} `{∀ x, Decision (Q x)}
    (l : list B) :
  length (filter R (filter Q l)) ≤ length (filter R l).
Proof.
  rewrite list_filter_filter. induction l as [|x l IH]; [done|].
  rewrite !filter_cons.
  destruct (decide (R x ∧ Q x)) as [[HR HQ]|Hn], (decide (R x)); simpl; try lia. done.
Qed.

Lemma filter_filter_nil {B} (R Q : B → Prop) `{∀ x, Decision (R x)} `{∀ x, Decision (Q x)}
    (l : list B) :
  filter R l = [] → filter R (filter Q l) = [].
Proof.
  intros Hnil. apply length_zero_iff_nil.
  pose proof (length_filter_filter R Q l) as Hle. rewrite Hnil in Hle. simpl in Hle. lia.
Qed.

Lemma filter_redundant_assignments_idempotent solution sim :
  Filtering.filter_redundant_assignments
    (Filtering.filter_redundant_assignments solution sim) sim
  = Filtering.filter_redundant_assignments solution sim.
Proof.
  unfold Filtering.filter_redundant_assignments.
  apply filter_all, Forall_forall. intros e He Hassigns.
  apply list_elem_of_filter in He as [Hkeep _].
  destruct (Hkeep Hassigns) as [Hfree Hlowest].
  split; [done|]. intros Hlower. apply Hlowest. by eapply claimed_by_lower_filter.
Qed.

Lemma enforce_capacity_survives sim (Q : (nat * nat) * Qc → Prop) `{∀ x, Decision (Q x)}
    (l : Solution) e :
  (Filtering.assigns e →
   length (Filtering.task_rivals reward sim l e) < capacity sim e.1.2) →
  Filtering.assigns e →
  length (Filtering.task_rivals reward sim (filter Q l) e) < capacity sim e.1.2.
Proof.
  intros Hkeep Hassigns. specialize (Hkeep Hassigns).
  unfold Filtering.task_rivals in *.
  eapply Nat.le_lt_trans; [apply length_filter_filter|done].
Qed.

Lemma enforce_one_task_per_robot_survives sim (Q : (nat * nat) * Qc → Prop)
    `{∀ x, Decision (Q x)} (l : Solution) e :
  (Filtering.assigns e → Filtering.robot_rivals reward sim l e = []) →
  Filtering.assigns e → Filtering.robot_rivals reward sim (filter Q l) e = [].
Proof.
  intros Hkeep Hassigns. specialize (Hkeep Hassigns).
  unfold Filtering.robot_rivals in *. by apply filter_filter_nil.
Qed.

Lemma filter_overassignments_idempotent solution sim :
  Filtering.filter_overassignments capacity reward
    (Filtering.filter_overassignments capacity reward solution sim) sim
  = Filtering.filter_overassignments capacity reward solution sim.
Proof.
  unfold Filtering.filter_overassignments.
  set (capped := Filtering.enforce_capacity capacity reward solution sim).
  set (kept := Filtering.enforce_one_task_per_robot reward capped sim).
  assert (Hcap : Filtering.enforce_capacity capacity reward kept sim = kept).
  { unfold Filtering.enforce_capacity at 1.
    apply filter_all, Forall_forall. intros e He.
    unfold kept, capped, Filtering.enforce_one_task_per_robot, Filtering.enforce_capacity in *.
    apply list_elem_of_filter in He as [_ He].
    apply list_elem_of_filter in He as [Hkeep _].
    by do 2 apply enforce_capacity_survives. }
  rewrite Hcap. unfold kept, Filtering.enforce_one_task_per_robot.
  apply filter_all, Forall_forall. intros e He.
  apply enforce_one_task_per_robot_survives.
  by apply list_elem_of_filter in He as [? _].
Qed.

(** C10. Each of the two filters, applied to its own result, returns that
    result, for every matching result and every simulation state. *)
Theorem filters_idempotent (solution : Solution) (sim : Simulation) :
  Filtering.filter_redundant_assignments
    (Filtering.filter_redundant_assignments solution sim) sim
  = Filtering.filter_redundant_assignments solution sim ∧
  Filtering.filter_overassignments capacity reward
    (Filtering.filter_overassignments capacity reward solution sim) sim
  = Filtering.filter_overassignments capacity reward solution sim.
Proof.
  split; [apply filter_redundant_assignments_idempotent|apply filter_overassignments_idempotent].
Qed.

End FilterProperties.

(** The first pass drops the pair of robot 1, which claims task 5 after
    robot 0, and the pair of robot 2, which is already linked to task 7; an
    entry that assigns nothing stays. *)
Example filter_redundant_assignments_run :
  Filtering.filter_redundant_assignments
    [((1, 5), 1%Qc); ((0, 5), 1%Qc); ((2, 7), 1%Qc); ((0, 7), 0%Qc)]
    (Demo.snapshot [Demo.idle_robot 0; Demo.idle_robot 1; Demo.busy_robot 2 1]
                   [Demo.done_task 0; Demo.pending_task 7; Demo.pending_task 5])
  = [((0, 5), 1%Qc); ((0, 7), 0%Qc)].
Proof. by vm_compute. Qed.

(** With capacity one and the robot index as reward, the second pass keeps
    for task 5 the pair of robot 1, and for robot 1 that pair only. *)
Example filter_overassignments_run :
  Filtering.filter_overassignments (λ _ _, 1) (λ _ robot _, Demo.qc (Z.of_nat robot))
    [((0, 5), 1%Qc); ((1, 5), 1%Qc); ((1, 6), 1%Qc)] Demo.midgame_sim
  = [((1, 5), 1%Qc)].
Proof. by vm_compute. Qed.

(** ** The floor of the clamp *)

Section Rewards32Properties.
Variable torch_normal32 : nat → nat → nat → Float32 → Qc → Float32.

Lemma reward_floor32_positive : (0 < reward_floor32)%Qc.
Proof. by vm_compute. Qed.

Lemma reward_floor32_below : (reward_floor32 < reward_floor)%Qc.
Proof. by vm_compute. Qed.

Lemma clamp_min32_floor (x : Float32) :
  clamp_min32 x = F32_nan ∨ at_least32 reward_floor32 (clamp_min32 x).
Proof.
  destruct x as [|[]|q]; cbn; [by left|right..].
  - apply Qcle_refl.
  - done.
  - destruct (decide (q < reward_floor32)%Qc); cbn; [apply Qcle_refl|by apply Qcnot_lt_le].
Qed.

Lemma clamp_min32_nan (x : Float32) : clamp_min32 x = F32_nan ↔ x = F32_nan.
Proof.
  destruct x as [|[]|q]; cbn; try done. by destruct (decide (q < reward_floor32)%Qc).
Qed.

Lemma torch_clamp32_floor (m : Matrix32) :
  Forall (Forall (λ x, x = F32_nan ∨ at_least32 reward_floor32 x)) (torch_clamp32 m).
Proof.
  unfold torch_clamp32. apply Forall_forall. intros row (row0 & -> & _)%list_elem_of_fmap.
  apply Forall_forall. intros x (x0 & -> & _)%list_elem_of_fmap. apply clamp_min32_floor.
Qed.

Lemma sample_rewards32_floor c g (m sampled : Matrix32) :
  Forall (Forall (λ x, x = F32_nan ∨ at_least32 reward_floor32 x)) m →
  sample_rewards32 torch_normal32 c g m = Ok sampled →
  Forall (Forall (λ x, x = F32_nan ∨ at_least32 reward_floor32 x)) sampled.
Proof.
  intros Hm. destruct c as [|stddev]; cbn; [by intros [= <-]|].
  destruct (decide (stddev < 0)%Qc); [done|]. intros [= <-]. apply torch_clamp32_floor.
Qed.

(** The entries of a row of [torch.cat((a, m, a), dim=1)] outside its first
    and last column, for a one-column [a], are a row of [m]. *)
Lemma cat_inner_rows n (s : Float32) (m out : Matrix32) :
  torch_cat_dim1_32 (replicate n [s]) m (replicate n [s]) = Ok out →
  Forall (λ row, py_slice row 1 (-1) ∈ m) out.
Proof.
  unfold torch_cat_dim1_32. destruct (decide _) as [[Hlen _]|]; [|done]. intros [= <-].
  rewrite length_replicate in Hlen. subst n.
  apply Forall_forall. intros row Hrow.
  apply list_elem_of_lookup in Hrow as [i Hi].
  apply lookup_zip_with_Some in Hi as (left & right & -> & Hleft & Hright).
  apply lookup_zip_with_Some in Hleft as (first & mid & -> & Hfirst & Hmid).
  apply lookup_replicate in Hfirst as [-> _]. apply lookup_replicate in Hright as [-> _].
  rewrite <- app_assoc, py_slice_inner. by eapply list_elem_of_lookup_2.
Qed.

(** C5 (amended). The floor of the clamp is the 32-bit float nearest to
    [1e-6], which is strictly positive and strictly below [1e-6]. Whatever
    the trained model answers, every entry outside the two sentinel columns
    of the matrix that is given to the matcher is a NaN or at least that
    floor, for both classes; for the base class it is a NaN only where the
    answer of the model has a NaN. [StochasticILSadcherScheduler.sample_rewards]
    re-clamps every sampled value, for every spread that [torch.normal]
    accepts, and raises exactly when the spread is negative. *)
Theorem matcher_rewards_float_floor_clamped (c : SadcherClass) (g n_robots : nat)
    (predicted_reward_raw reward : Matrix32) :
  predicted_reward32 torch_normal32 c g n_robots predicted_reward_raw = Ok reward →
  ((0 < reward_floor32)%Qc ∧ (reward_floor32 < reward_floor)%Qc) ∧
  Forall (λ row, Forall (λ x, x = F32_nan ∨ at_least32 reward_floor32 x)
                        (py_slice row 1 (-1))) reward ∧
  (c = SadcherBase →
   Forall (Forall (λ x, x ≠ F32_nan)) predicted_reward_raw →
   Forall (λ row, Forall (at_least32 reward_floor32) (py_slice row 1 (-1))) reward) ∧
  ∀ stddev m,
    match sample_rewards32 torch_normal32 (StochasticIL stddev) g m with
    | Ok sampled =>
        Forall (Forall (λ x, x = F32_nan ∨ at_least32 reward_floor32 x)) sampled ∧
        ¬ (stddev < 0)%Qc
    | Raise _ => (stddev < 0)%Qc
    end.
Proof.
  intros Hreward. split; [split; [apply reward_floor32_positive|apply reward_floor32_below]|].
  unfold predicted_reward32 in Hreward.
  destruct (sample_rewards32 _ c g _) as [sampled|] eqn:Hsampled; [|done].
  cbn [result_bind] in Hreward. apply cat_inner_rows in Hreward.
  pose proof (sample_rewards32_floor _ _ _ _ (torch_clamp32_floor _) Hsampled) as Hfloor.
  split_and!.
  - eapply Forall_impl; [exact Hreward|]. intros row Hrow. cbn in Hrow.
    by apply (proj1 (Forall_forall _ _) Hfloor).
  - intros -> Hnan. injection Hsampled as <-.
    eapply Forall_impl; [exact Hreward|]. intros row Hrow. cbn in Hrow.
    unfold torch_clamp32 in Hrow. apply list_elem_of_fmap in Hrow as (row0 & -> & Hrow0).
    apply Forall_forall. intros x (x0 & -> & Hx0)%list_elem_of_fmap.
    destruct (clamp_min32_floor x0) as [Hx|Hx]; [|done].
    apply (proj1 (clamp_min32_nan x0)) in Hx.
    apply (proj1 (Forall_forall _ _) Hnan) in Hrow0.
    exfalso. exact (proj1 (Forall_forall _ _) Hrow0 x0 Hx0 Hx).
  - intros stddev m. cbn. destruct (decide (stddev < 0)%Qc); [done|].
    split; [apply torch_clamp32_floor|done].
Qed.

End Rewards32Properties.

Lemma matcher_rewards_float_floor_clamped_witness :
  let draw (g i j : nat) (mean : Float32) (std : Qc) : Float32 :=
    match mean with
    | F32_finite q => F32_finite (q - std - std)%Qc
    | _ => mean
    end in
  predicted_reward32 draw (StochasticIL 1%Qc) 0 1
    [[F32_finite (Demo.qc 1); F32_finite (Demo.qc 5); F32_nan]]
  = Ok [[F32_finite sentinel_reward; F32_finite reward_floor32; F32_finite (Demo.qc 3);
         F32_nan; F32_finite sentinel_reward]] ∧
  Forall (λ row, Forall (λ x, x = F32_nan ∨ at_least32 reward_floor32 x) (py_slice row 1 (-1)))
    [[F32_finite sentinel_reward; F32_finite reward_floor32; F32_finite (Demo.qc 3);
      F32_nan; F32_finite sentinel_reward]].
Proof.
  cbv zeta.
  set (draw := λ (g i j : nat) (mean : Float32) (std : Qc),
                 match mean with
                 | F32_finite q => F32_finite (q - std - std)%Qc
                 | _ => mean
                 end).
  assert (Hrun : predicted_reward32 draw (StochasticIL 1%Qc) 0 1
                   [[F32_finite (Demo.qc 1); F32_finite (Demo.qc 5); F32_nan]]
                 = Ok [[F32_finite sentinel_reward; F32_finite reward_floor32;
                        F32_finite (Demo.qc 3); F32_nan; F32_finite sentinel_reward]])
    by (by vm_compute).
  split; [exact Hrun|].
  by pose proof (matcher_rewards_float_floor_clamped draw _ _ _ _ _ Hrun) as (_ & Hfloor & _).
Defined.

(** An answer of [0] is raised to the floor of the code, which is below
    [1e-6]; a NaN is passed on, and is not at least anything. *)
Lemma floor_below_epsilon_counterexample :
  let same (g i j : nat) (mean : Float32) (std : Qc) : Float32 := mean in
  predicted_reward32 same SadcherBase 0 1 [[F32_finite 0%Qc]]
  = Ok [[F32_finite sentinel_reward; F32_finite reward_floor32; F32_finite sentinel_reward]] ∧
  ¬ Forall (λ row, Forall (at_least32 reward_floor) (py_slice row 1 (-1)))
      [[F32_finite sentinel_reward; F32_finite reward_floor32; F32_finite sentinel_reward]] ∧
  predicted_reward32 same SadcherBase 0 1 [[F32_nan]]
  = Ok [[F32_finite sentinel_reward; F32_nan; F32_finite sentinel_reward]] ∧
  ¬ Forall (λ row, Forall (λ x, ∃ c, at_least32 c x) (py_slice row 1 (-1)))
      [[F32_finite sentinel_reward; F32_nan; F32_finite sentinel_reward]].
Proof.
  cbv zeta. split_and!; [by vm_compute| |by vm_compute|].
  - rewrite Forall_singleton.
    replace (py_slice _ 1 (-1)) with [F32_finite reward_floor32] by reflexivity.
    rewrite Forall_singleton. cbn. apply Qclt_not_le. by vm_compute.
  - rewrite Forall_singleton.
    replace (py_slice _ 1 (-1)) with [F32_nan] by reflexivity.
    rewrite Forall_singleton. by intros [c []].
Qed.

(** * Further properties of the code *)

(** ** Outcomes of a decision point *)

Section SchedulerOutcomeProperties.
Context `{SchedulerExternals}.

Lemma torch_cat_dim1_frame n (m : Matrix) :
  torch_cat_dim1 (torch_column n sentinel_reward) m (torch_column n sentinel_reward)
  = if decide (length m = n) then Ok (map frame_row m)
    else Raise (RuntimeError "Sizes of tensors must match except in dimension 1").
Proof.
  destruct (decide (length m = n)) as [Hlen|Hlen].
  - destruct (torch_cat_dim1 _ m _) as [m'|e] eqn:Hcat.
    + by apply torch_cat_dim1_columns in Hcat as [_ ->].
    + unfold torch_cat_dim1, torch_column in Hcat. rewrite length_replicate in Hcat.
      by rewrite decide_True in Hcat.
  - unfold torch_cat_dim1, torch_column. rewrite length_replicate.
    rewrite decide_False; [done|]. intros [? _]. congruence.
Qed.

Lemma sampled_reward_length w : length (sampled_reward w) = length (model_output w).
Proof.
  unfold sampled_reward. destruct (class (w_self w)).
  - apply torch_clamp_length.
  - by rewrite length_imap.
Qed.

Lemma sampled_reward_rows w i row :
  sampled_reward w !! i = Some row →
  ∃ row', model_output w !! i = Some row' ∧ length row = length row'.
Proof.
  unfold sampled_reward. destruct (class (w_self w)).
  - unfold torch_clamp.
    change (map (map (clamp_min reward_floor)) (model_output w))
      with (map (clamp_min reward_floor) <$> model_output w).
    unfold Matrix. rewrite list_lookup_fmap. intros Hrow.
    apply fmap_Some in Hrow as (row' & Hrow' & ->).
    exists row'. split; [done|]. apply length_map.
  - unfold Matrix. rewrite list_lookup_imap. intros Hrow.
    apply fmap_Some in Hrow as (row' & Hrow' & ->).
    exists row'. split; [done|]. apply length_imap.
Qed.

Lemma debug_check_framed n (m : Matrix) :
  forallb (λ row, n <=? length row) (map frame_row m)
  = forallb (λ row, n <=? length row + 2) m.
Proof.
  induction m as [|row m IH]; [done|]. simpl. rewrite IH. f_equal.
  rewrite length_app. simpl. f_equal. lia.
Qed.

Lemma debug_check_sampled w :
  forallb (λ row, length (tasks (w_sim w)) <=? length row + 2) (sampled_reward w)
  = debug_rows_ok w.
Proof.
  unfold debug_rows_ok.
  apply eq_true_iff_eq. rewrite !forallb_forall.
  split; intros Hall row Hin%list_elem_of_In; unfold Matrix in *.
  - apply list_elem_of_lookup in Hin as [i Hi].
    assert (Hlt : i < length (sampled_reward w)).
    { rewrite sampled_reward_length. by eapply lookup_lt_Some. }
    apply lookup_lt_is_Some in Hlt as [row' Hrow'].
    destruct (sampled_reward_rows _ _ _ Hrow') as (row'' & Hrow'' & Hlen).
    unfold Matrix in *. rewrite Hi in Hrow''. injection Hrow'' as <-.
    rewrite <- Hlen. apply Hall, list_elem_of_In.
    by eapply list_elem_of_lookup_2.
  - apply list_elem_of_lookup in Hin as [i Hi].
    destruct (sampled_reward_rows _ _ _ Hi) as (row' & Hrow' & ->).
    apply Hall, list_elem_of_In. by eapply list_elem_of_lookup_2.
Qed.

Lemma sample_rewards_run w :
  sample_rewards (torch_clamp (model_output w) reward_floor) w
  = match class (w_self w) with
    | SadcherBase => (Ok (sampled_reward w), w, [])
    | StochasticIL stddev =>
        if decide (stddev < 0)%Qc
        then (Raise (RuntimeError "normal expects std >= 0.0"), w, [])
        else (Ok (sampled_reward w),
              {| w_sim := w_sim w; w_self := w_self w; w_generator := S (w_generator w) |}, [])
    end.
Proof.
  unfold sample_rewards, sampled_reward.
  erewrite bind_ok; [|by unfold get_self]. cbn [fst snd app].
  destruct (class (w_self w)) as [|stddev].
  - unfold SadcherScheduler_sample_rewards, ret. by destruct w.
  - unfold StochasticILSadcherScheduler_sample_rewards, torch_normal.
    destruct (decide (stddev < 0)%Qc); [done|].
    unfold bind, next_generator_state, ret. cbn [fst snd app]. do 3 f_equal.
    unfold torch_clamp.
    change (map (map (clamp_min reward_floor)) (model_output w))
      with (map (clamp_min reward_floor) <$> model_output w).
    change (map (map (clamp_min reward_floor)) ?l)
      with (map (clamp_min reward_floor) <$> l).
    rewrite imap_fmap, fmap_imap. apply imap_ext. intros i row _. simpl.
    change (map (clamp_min reward_floor) ?l) with (clamp_min reward_floor <$> l).
    rewrite imap_fmap, fmap_imap. by apply imap_ext.
Qed.

Lemma bind_run {A B} (c : M A) (k : A → M B) w a w1 evs1 :
  c w = (Ok a, w1, evs1) →
  bind c k w = (let '(r, w2, evs2) := k a w1 in (r, w2, evs1 ++ evs2)).
Proof. unfold bind. by intros ->. Qed.

(** The whole general branch, outcome by outcome. *)
Lemma calculate_general_run w :
  length (incomplete_tasks (w_sim w)) ≠ 1 →
  let oracle := OracleCall (extract_task_robot_features (w_self w) (w_sim w)).2
                           (extract_task_robot_features (w_self w) (w_sim w)).1
                           (task_adjacency (w_sim w)) in
  let reward := map frame_row (sampled_reward w) in
  let w1 := {| w_sim := w_sim w; w_self := w_self w;
               w_generator := match class (w_self w) with
                              | SadcherBase => w_generator w
                              | StochasticIL _ => S (w_generator w)
                              end |} in
  calculate_robot_assignment w
  = if negb (spread_accepted (class (w_self w))) then
      (Raise (RuntimeError "normal expects std >= 0.0"), w, [oracle])
    else if negb (bool_decide (length (model_output w) = length (robots (w_sim w)))) then
      (Raise (RuntimeError "Sizes of tensors must match except in dimension 1"), w1, [oracle])
    else if debug (w_self w) && negb (debug_rows_ok w) then
      (Raise (IndexError "index is out of bounds"), w1, [oracle])
    else
      (Ok (reward,
           {| robot_assignments :=
                selected_assignments
                  (filter_overassignments
                     (filter_redundant_assignments (solve (matcher_in_use w) reward).1 (w_sim w))
                     (w_sim w)) |}),
       {| w_sim := w_sim w;
          w_self := set_bipartite_matcher (w_self w) (Some (solve (matcher_in_use w) reward).2);
          w_generator := w_generator w1 |},
       oracle :: match bipartite_matcher (w_self w) with Some _ => [] | None => [MatcherBuilt] end
              ++ [MatcherSolve reward]).
Proof.
  intros Hgen. cbv zeta. unfold calculate_robot_assignment.
  erewrite bind_run; [|by unfold get_sim].
  destruct (decide _) as [|_]; [done|].
  erewrite bind_run; [|by unfold get_self].
  unfold extract_task_robot_features. cbv beta iota zeta.
  erewrite bind_run; [|apply call_trained_model_run].
  change (SchedulerNetwork_forward _ _ _ _) with (model_output w).
  pose proof (sample_rewards_run w) as Hsample.
  pose proof (debug_check_sampled w) as Hdebug.
  pose proof (sampled_reward_length w) as Hlen.
  unfold debug_rows_ok in *. unfold spread_accepted, matcher_in_use.
  set (raw := model_output w) in *. set (sampled := sampled_reward w) in *.
  destruct (class (w_self w)) as [|stddev].
  - erewrite bind_run; [|exact Hsample]. cbn [negb].
    unfold lift_result, bind at 1 2. rewrite !torch_cat_dim1_frame, Hlen.
    destruct (decide (length raw = length (robots (w_sim w)))) as [Hrows|Hrows].
    + rewrite bool_decide_eq_true_2 by done. cbn [negb].
      unfold debug_block, get_bipartite_matcher, bipartite_matcher_solve, bind, get_self,
        get_sim, put_self, emit, ret, raise. cbn [fst snd app].
      rewrite !debug_check_framed, Hdebug.
      destruct (debug (w_self w)); [destruct (forallb _ raw)|]; cbn;
        destruct (bipartite_matcher (w_self w)); cbn; by destruct w.
    + rewrite bool_decide_eq_false_2 by done. by destruct w.
  - destruct (decide (stddev < 0)%Qc) as [Hneg|Hpos].
    + erewrite bind_raise; [|exact Hsample].
      rewrite bool_decide_eq_false_2 by (intros Hn; by apply Hn). done.
    + erewrite bind_run; [|exact Hsample].
      rewrite bool_decide_eq_true_2 by done. cbn [negb].
      unfold lift_result, bind at 1 2. rewrite !torch_cat_dim1_frame, Hlen.
      destruct (decide (length raw = length (robots (w_sim w)))) as [Hrows|Hrows].
      * rewrite bool_decide_eq_true_2 by done. cbn [negb].
        unfold debug_block, get_bipartite_matcher, bipartite_matcher_solve, bind, get_self,
          get_sim, put_self, emit, ret, raise. cbn [fst snd app w_self w_sim].
        rewrite !debug_check_framed, Hdebug.
        destruct (debug (w_self w)); [destruct (forallb _ raw)|]; cbn;
          destruct (bipartite_matcher (w_self w)); cbn; done.
      * rewrite bool_decide_eq_false_2 by done. done.
Qed.
(** X1. A decision point returns normally exactly when it takes the end-game
    branch or when, in the general branch, the spread is not negative, the
    trained model answers with one row per robot and, in debug mode, every
    framed row has an entry for every task of the simulation. When it
    raises, it has called the trained model once and nothing else: no
    matcher was built or asked, and the simulation and the scheduler object
    are as before. The exception is the [RuntimeError] of [torch.normal] for
    a negative spread, else the [RuntimeError] of [torch.cat] for a wrong
    number of rows, else the [IndexError] of the debug block. *)
Theorem decision_point_failures (w : World) :
  let out := calculate_robot_assignment w in
  is_ok (result_of out)
  = bool_decide (length (incomplete_tasks (w_sim w)) = 1) || general_branch_succeeds w ∧
  ∀ e, result_of out = Raise e →
    events_of out = [OracleCall (extract_task_robot_features (w_self w) (w_sim w)).2
                                (extract_task_robot_features (w_self w) (w_sim w)).1
                                (task_adjacency (w_sim w))] ∧
    w_sim (world_of out) = w_sim w ∧ w_self (world_of out) = w_self w ∧
    e = if negb (spread_accepted (class (w_self w)))
        then RuntimeError "normal expects std >= 0.0"
        else if negb (bool_decide (length (model_output w) = length (robots (w_sim w))))
        then RuntimeError "Sizes of tensors must match except in dimension 1"
        else IndexError "index is out of bounds".
Proof.
  cbv zeta.
  destruct (endgame_or_general (w_sim w)) as [(task_ref & task & Hinc)|Hgen].
  - rewrite (calculate_endgame w task_ref task Hinc). simpl.
    rewrite Hinc. by rewrite bool_decide_eq_true_2.
  - rewrite (calculate_general_run w Hgen).
    rewrite (bool_decide_eq_false_2 _ Hgen). unfold general_branch_succeeds.
    destruct (spread_accepted _); cbn [negb orb andb]; [|split; [done|by intros e [= <-]]].
    destruct (bool_decide _); cbn [negb orb andb]; [|split; [done|by intros e [= <-]]].
    destruct (debug (w_self w)), (debug_rows_ok w); cbn [negb orb andb];
      (split; [done|]); by intros e [= <-].
Qed.

(** X2. When the general branch returns normally, the reward matrix it
    returns is the one it gave to the matcher: every row of the rewards
    after sampling between two entries [-1000], where the rewards after
    sampling are the answer of the model clamped to the floor (base class),
    moved by the scaled draws and clamped again (stochastic class). The
    schedule is what the two filters leave of the matcher's solution for
    that matrix. The matcher asked is the cached one if there is one, else a
    new one built from the simulation; its state after solving is cached.
    The generator advances by one draw for the stochastic class and not at
    all for the base class. *)
Theorem general_branch_result (w : World) :
  length (incomplete_tasks (w_sim w)) ≠ 1 →
  general_branch_succeeds w = true →
  let out := calculate_robot_assignment w in
  let reward := map frame_row (sampled_reward w) in
  let solution := solve (matcher_in_use w) reward in
  result_of out
  = Ok (reward,
        {| robot_assignments :=
             selected_assignments
               (filter_overassignments
                  (filter_redundant_assignments solution.1 (w_sim w)) (w_sim w)) |}) ∧
  matcher_inputs (events_of out) = [reward] ∧
  bipartite_matcher (w_self (world_of out)) = Some solution.2 ∧
  w_generator (world_of out)
  = match class (w_self w) with
    | SadcherBase => w_generator w
    | StochasticIL _ => S (w_generator w)
    end.
Proof.
  intros Hgen Hok. cbv zeta. rewrite (calculate_general_run w Hgen).
  unfold general_branch_succeeds in Hok.
  apply andb_prop in Hok as [Hok Hdebug]. apply andb_prop in Hok as [Hspread Hrows].
  rewrite Hspread, Hrows. cbn [negb].
  replace (debug (w_self w) && negb (debug_rows_ok w)) with false
    by (by destruct (debug (w_self w)), (debug_rows_ok w)).
  cbn. split_and!; try done. by destruct (bipartite_matcher (w_self w)).
Qed.

(** X3. A scheduler builds its matcher at most once. A decision point that
    starts with a cached matcher builds none and keeps one cached; any
    decision point builds at most one; and after a decision point of the
    general branch that returned normally a matcher is cached, so that no
    later decision point of that scheduler builds one. *)
Theorem matcher_built_at_most_once (w : World) :
  let out := calculate_robot_assignment w in
  length (filter (λ e, is_matcher_built e = true) (events_of out)) ≤ 1 ∧
  (is_Some (bipartite_matcher (w_self w)) →
   filter (λ e, is_matcher_built e = true) (events_of out) = [] ∧
   is_Some (bipartite_matcher (w_self (world_of out)))) ∧
  (length (incomplete_tasks (w_sim w)) ≠ 1 → is_ok (result_of out) = true →
   is_Some (bipartite_matcher (w_self (world_of out))) ∧
   ∀ w', w_self w' = w_self (world_of out) →
         filter (λ e, is_matcher_built e = true)
                (events_of (calculate_robot_assignment w')) = []).
Proof.
  assert (Hcached : ∀ w0, is_Some (bipartite_matcher (w_self w0)) →
            filter (λ e, is_matcher_built e = true)
                   (events_of (calculate_robot_assignment w0)) = [] ∧
            is_Some (bipartite_matcher (w_self (world_of (calculate_robot_assignment w0))))).
  { intros w0 [m Hm].
    destruct (endgame_or_general (w_sim w0)) as [(task_ref & task & Hinc)|Hgen].
    - rewrite (calculate_endgame w0 task_ref task Hinc). split; [done|by exists m].
    - rewrite (calculate_general_run w0 Hgen). rewrite Hm.
      destruct (negb (spread_accepted _)); [split; [done|by exists m]|].
      destruct (negb (bool_decide _)); [split; [done|by exists m]|].
      destruct (_ && _); [split; [done|by exists m]|]. split; [done|by eexists]. }
  cbv zeta. split_and!.
  - destruct (endgame_or_general (w_sim w)) as [(task_ref & task & Hinc)|Hgen].
    + rewrite (calculate_endgame w task_ref task Hinc). simpl. lia.
    + rewrite (calculate_general_run w Hgen).
      destruct (negb (spread_accepted _)); [simpl; lia|].
      destruct (negb (bool_decide _)); [simpl; lia|].
      destruct (_ && _); [simpl; lia|].
      destruct (bipartite_matcher (w_self w)); simpl; lia.
  - apply Hcached.
  - intros Hgen Hok.
    assert (Hsome : is_Some (bipartite_matcher
                               (w_self (world_of (calculate_robot_assignment w))))).
    { rewrite (calculate_general_run w Hgen) in Hok |- *.
      destruct (negb (spread_accepted _)); [done|].
      destruct (negb (bool_decide _)); [done|].
      destruct (_ && _); [done|]. by eexists. }
    split; [done|]. intros w' Hself. apply Hcached. by rewrite Hself.
Qed.

(** X4. The schedule built from a solution gives each robot the task of
    the last pair of that robot whose value is exactly 1, and gives no task
    to a robot without such a pair: a value such as 0.999 does not assign,
    and of two assigning pairs of one robot the later one wins. *)
Theorem selected_assignments_last_wins (solution : Solution) (robot : nat) :
  selected_assignments solution !! robot
  = (λ entry, entry.1.2) <$> last (filter (λ entry, entry.1.1 = robot ∧ entry.2 = 1%Qc) solution).
Proof.
  unfold selected_assignments, Solution in *.
  induction solution as [|entry solution IH] using rev_ind; [done|].
  rewrite foldl_app, filter_app, filter_cons, filter_nil. cbn [foldl].
  destruct (decide (entry.2 = 1%Qc)) as [Hone|Hnot].
  - destruct (decide (entry.1.1 = robot)) as [<-|Hother].
    + rewrite lookup_insert_eq, decide_True by done. by rewrite last_snoc.
    + rewrite lookup_insert_ne by done. rewrite decide_False by tauto.
      by rewrite app_nil_r.
  - rewrite decide_False by tauto. by rewrite app_nil_r.
Qed.

Lemma mark_current_task_idempotent task_ref robot :
  mark_current_task task_ref (mark_current_task task_ref robot)
  = mark_current_task task_ref robot.
Proof. unfold mark_current_task. by destruct (available robot) eqn:Ha; simpl; rewrite ?Ha. Qed.

Lemma available_marked task_ref (rs : list Robot) (acc : gmap nat nat) tid :
  foldl (λ a r, <[robot_id r := tid]> a) acc
        (filter (λ r, Is_true (available r)) (map (mark_current_task task_ref) rs))
  = foldl (λ a r, <[robot_id r := tid]> a) acc (filter (λ r, Is_true (available r)) rs).
Proof.
  induction rs as [|r rs IH] in acc |- *; [done|].
  cbn [map]. rewrite !filter_cons.
  assert (Hav : available (mark_current_task task_ref r) = available r).
  { unfold mark_current_task. by destruct (available r) eqn:Ha. }
  assert (Hid : robot_id (mark_current_task task_ref r) = robot_id r).
  { unfold mark_current_task. by destruct (available r). }
  rewrite Hav. destruct (decide (Is_true (available r))); [|done].
  cbn [foldl]. by rewrite Hid, IH.
Qed.

(** X5. A second end-game decision point on the state left by the first
    returns the same reward matrix and schedule and changes nothing more:
    the links written by the first one are written again with the same
    value. *)
Theorem endgame_decision_repeats (w : World) (task : Task) :
  filter pending_incomplete (tasks (w_sim w)) = [task] →
  let first := calculate_robot_assignment w in
  let second := calculate_robot_assignment (world_of first) in
  result_of second = result_of first ∧ world_of second = world_of first ∧
  events_of second = [].
Proof.
  intros Hone. destruct (endgame_condition _ _ Hone) as (task_ref & Hinc & _).
  cbv zeta. rewrite (calculate_endgame w task_ref task Hinc).
  unfold world_of, result_of, events_of. cbn [fst snd].
  set (w1 := {| w_sim := set_robots (w_sim w) (map (mark_current_task task_ref)
                                                   (robots (w_sim w)));
                w_self := w_self w; w_generator := w_generator w |}).
  rewrite (calculate_endgame w1 task_ref task Hinc).
  subst w1. cbn [fst snd w_sim w_self w_generator set_robots robots tasks].
  rewrite length_map, available_marked.
  split_and!; [done| |done].
  do 2 f_equal. change (@map Robot Robot) with (@fmap list _ Robot Robot). rewrite <- list_fmap_compose.
  apply list_fmap_ext. intros i r _. apply mark_current_task_idempotent.
Qed.

(** X16. Whichever branch is taken, the reward matrix that a decision point
    returns has one row per robot of the simulation. *)
Theorem reward_has_row_per_robot (w : World) (reward : Matrix)
    (schedule : Instantaneous_Schedule) :
  result_of (calculate_robot_assignment w) = Ok (reward, schedule) →
  length reward = length (robots (w_sim w)).
Proof.
  destruct (endgame_or_general (w_sim w)) as [(task_ref & task & Hinc)|Hgen].
  - rewrite (calculate_endgame w task_ref task Hinc). cbn. intros [= <- _].
    unfold torch_zeros. by rewrite length_replicate.
  - rewrite (calculate_general_run w Hgen).
    destruct (negb (spread_accepted _)); [done|].
    destruct (bool_decide _) eqn:Hrows; cbn [negb]; [|done].
    destruct (_ && _); [done|]. cbn. intros [= <- _].
    apply bool_decide_eq_true in Hrows. by rewrite length_map, sampled_reward_length.
Qed.
End SchedulerOutcomeProperties.

(** ** Loading the weights *)

Section WeightLoadingProperties.
Context `{SchedulerExternals}.

Lemma dict_lookup_nil {V} (k : string) : dict_lookup (@nil (string * V)) k = None.
Proof. done. Qed.

Lemma dict_lookup_cons {V} (d : list (string * V)) k' v' k :
  dict_lookup ((k', v') :: d) k = if decide (k' = k) then Some v' else dict_lookup d k.
Proof.
  unfold dict_lookup. cbn. destruct (decide (k' = k)); [done|].
  by destruct (list_find _ d) as [[i kv]|].
Qed.

Lemma dict_lookup_Some_elem {V} (d : list (string * V)) k v :
  dict_lookup d k = Some v → (k, v) ∈ d.
Proof.
  induction d as [|[k' v'] d IH]; [done|]. rewrite dict_lookup_cons.
  destruct (decide (k' = k)) as [->|]; [intros [= ->]; left|right; auto].
Qed.

Lemma dict_lookup_None {V} (d : list (string * V)) k :
  dict_lookup d k = None ↔ k ∉ d.*1.
Proof.
  induction d as [|[k' v'] d IH]; [split; [intros _; apply not_elem_of_nil|done]|].
  rewrite dict_lookup_cons, fmap_cons, not_elem_of_cons. cbn.
  destruct (decide (k' = k)) as [->|Hne]; [split; [done|tauto]|]. rewrite IH. split; [by intros ?; split; [intros ->|]|by intros [_ ?]].
Qed.

Lemma dict_lookup_NoDup {V} (d : list (string * V)) k v :
  NoDup d.*1 → (k, v) ∈ d → dict_lookup d k = Some v.
Proof.
  induction d as [|[k' v'] d IH]; [by intros _ ?%elem_of_nil|].
  rewrite fmap_cons, NoDup_cons, elem_of_cons, dict_lookup_cons. cbn.
  intros [Hnot Hnd] [[= -> ->]|Hin]; [by rewrite decide_True|].
  destruct (decide (k' = k)) as [->|]; [|by apply IH].
  destruct Hnot. apply list_elem_of_fmap. by exists (k, v).
Qed.

Lemma dict_lookup_dict_set {V} (d : list (string * V)) k v k' :
  dict_lookup (dict_set d k v) k' = if decide (k = k') then Some v else dict_lookup d k'.
Proof.
  induction d as [|[k0 v0] d IH]; cbn [dict_set].
  - by rewrite dict_lookup_cons.
  - destruct (decide (k0 = k)) as [->|Hne]; rewrite !dict_lookup_cons.
    + by destruct (decide (k = k')).
    + rewrite IH. destruct (decide (k0 = k')) as [->|]; [by rewrite decide_False|done].
Qed.

Lemma dict_set_keys {V} (d : list (string * V)) k v :
  (dict_set d k v).*1 = if decide (k ∈ d.*1) then d.*1 else d.*1 ++ [k].
Proof.
  induction d as [|[k0 v0] d IH]; cbn [dict_set]; [done|].
  rewrite !fmap_cons. cbn [fst].
  destruct (decide (k0 = k)) as [->|Hne].
  - rewrite decide_True by left. done.
  - rewrite fmap_cons, IH. cbn [fst].
    destruct (decide (k ∈ d.*1)).
    + rewrite decide_True by (by right). done.
    + rewrite decide_False; [done|]. rewrite elem_of_cons. by intros [->|?].
Qed.

Lemma dict_set_NoDup {V} (d : list (string * V)) k v :
  NoDup d.*1 → NoDup (dict_set d k v).*1.
Proof.
  intros Hnd. rewrite dict_set_keys. destruct (decide _); [done|].
  apply NoDup_app. split_and!; [done| |apply NoDup_singleton].
  intros x Hx ->%list_elem_of_singleton. done.
Qed.

Lemma dict_of_items_NoDup {V} (f : string → string) (items : list (string * V)) d :
  NoDup d.*1 → NoDup (foldl (λ d kv, dict_set d (f kv.1) kv.2) d items).*1.
Proof.
  induction items as [|kv items IH] in d |- *; [done|].
  intros Hnd. cbn [foldl]. by apply IH, dict_set_NoDup.
Qed.

Lemma dict_of_items_lookup {V} (f : string → string) (items : list (string * V)) d k :
  dict_lookup (foldl (λ d kv, dict_set d (f kv.1) kv.2) d items) k
  = match last (filter (λ kv, f kv.1 = k) items) with
    | Some kv => Some kv.2
    | None => dict_lookup d k
    end.
Proof.
  induction items as [|kv items IH] using rev_ind; [done|].
  rewrite foldl_app, filter_app, filter_cons, filter_nil. cbn [foldl].
  rewrite dict_lookup_dict_set. destruct (decide (f kv.1 = k)).
  - by rewrite last_snoc.
  - by rewrite app_nil_r.
Qed.

Lemma dict_get_lookup items key (default : PyObj) :
  dict_get (PyDict items) key default = Ok (from_option id default (dict_lookup items key)).
Proof.
  unfold dict_get, dict_lookup. by destruct (list_find _ items) as [[i kv]|].
Qed.

(** Every layer kept by the filter of lines 149 to 153 is a layer of the
    model, of the same size. *)
Lemma filter_matching_layers_elem current items filtered k t' :
  filter_matching_layers current items = Ok filtered →
  (k, t') ∈ filtered →
  (k, PyTensor t') ∈ items ∧
  ∃ cur, dict_lookup current k = Some cur ∧ tensor_size t' = tensor_size cur.
Proof.
  induction items as [|[k0 v0] items IH] in filtered |- *; cbn [filter_matching_layers].
  - by intros [= <-] ?%elem_of_nil.
  - unfold layer_matches.
    destruct (dict_lookup current k0) as [cur|] eqn:Hcur; cbn [result_bind].
    + destruct v0 as [sub|t0]; cbn [result_bind]; [done|].
      destruct (filter_matching_layers current items) as [rest|e]; cbn [result_bind]; [|done].
      intros [= <-].
      destruct (bool_decide (tensor_size t0 = tensor_size cur)) eqn:Hsize.
      * apply bool_decide_eq_true in Hsize.
        intros [[= -> ->]|Hin]%elem_of_cons.
        -- split; [left|eauto].
        -- destruct (IH rest eq_refl Hin) as [? ?]. split; [by right|done].
      * intros Hin. destruct (IH rest eq_refl Hin) as [? ?]. split; [by right|done].
    + destruct (filter_matching_layers current items) as [rest|e]; cbn [result_bind]; [|done].
      intros [= <-] Hin. destruct v0; destruct (IH rest eq_refl Hin) as [? ?];
        (split; [by right|done]).
Qed.

(** The filter returns normally when every item that names a layer of the
    model is a tensor, and then it holds under a key the checkpoint's tensor
    for that key if the model has a layer of that name and size. *)
Lemma filter_matching_layers_lookup current items :
  NoDup items.*1 →
  Forall (λ kv, dict_lookup current kv.1 = None ∨ ∃ t, kv.2 = PyTensor t) items →
  ∃ filtered,
    filter_matching_layers current items = Ok filtered ∧
    ∀ k cur, dict_lookup current k = Some cur →
      dict_lookup filtered k
      = match dict_lookup items k with
        | Some (PyTensor t') =>
            if bool_decide (tensor_size t' = tensor_size cur) then Some t' else None
        | _ => None
        end.
Proof.
  induction items as [|[k0 v0] items IH]; [by eexists|].
  rewrite fmap_cons, NoDup_cons, Forall_cons. cbn [fst snd].
  intros [Hnot Hnd] [Hhead Htail]. destruct (IH Hnd Htail) as (rest & Hrest & Hlookup).
  cbn [filter_matching_layers]. rewrite Hrest. unfold layer_matches.
  destruct (dict_lookup current k0) as [cur0|] eqn:Hcur0; cbn [result_bind].
  - destruct Hhead as [?|[t0 ->]]; [done|]. cbn [result_bind]. eexists. split; [done|].
    intros k cur Hcur. rewrite dict_lookup_cons.
    destruct (decide (k0 = k)) as [->|Hne].
    + assert (cur0 = cur) as -> by congruence.
      destruct (bool_decide _); [by rewrite dict_lookup_cons, decide_True|].
      rewrite (Hlookup _ _ Hcur).
      by apply dict_lookup_None in Hnot as ->.
    + destruct (bool_decide _); [rewrite dict_lookup_cons, decide_False by done|];
        by apply Hlookup.
  - exists rest. split; [by destruct v0|].
    intros k cur Hcur. rewrite dict_lookup_cons.
    destruct (decide (k0 = k)) as [->|Hne]; [congruence|]. by apply Hlookup.
Qed.


Lemma load_state_dict_sizes (current filtered : StateDict) :
  NoDup current.*1 →
  (∀ k t', (k, t') ∈ filtered →
     ∃ cur, dict_lookup current k = Some cur ∧ tensor_size t' = tensor_size cur) →
  (load_state_dict current filtered).*1 = current.*1 ∧
  tensor_size <$> (load_state_dict current filtered).*2 = tensor_size <$> current.*2.
Proof.
  intros Hnd Hfiltered. unfold load_state_dict, StateDict in *.
  change (map ?f current) with (f <$> current).
  rewrite <- !list_fmap_compose. split; [by apply list_fmap_ext|].
  apply list_fmap_ext. intros i [k t] Hkt%list_elem_of_lookup_2. cbn.
  destruct (dict_lookup filtered k) as [t'|] eqn:Hlookup; [|done]. cbn.
  destruct (Hfiltered k t' (dict_lookup_Some_elem _ _ _ Hlookup)) as (cur & Hcur & ->).
  rewrite (dict_lookup_NoDup _ _ _ Hnd Hkt) in Hcur. by injection Hcur as ->.
Qed.

(** Lines 142 to 155 on the items of the dict that is read. *)
Lemma load_items current (items : list (string * PyObj)) :
  NoDup current.*1 →
  Forall (λ kv, dict_lookup current (strip_prefix "scheduler_net." kv.1) = None ∨
                ∃ t, kv.2 = PyTensor t) items →
  result_bind
    (filter_matching_layers current
       (foldl (λ d kv, dict_set d (strip_prefix "scheduler_net." kv.1) kv.2) [] items))
    (λ filtered, Ok (load_state_dict current filtered))
  = Ok (map (λ kv, (kv.1, loaded_layer (checkpoint_entry items kv.1) kv.2)) current).
Proof.
  intros Hnd Hitems.
  set (csd := foldl _ [] items).
  assert (Hcsd : ∀ k, dict_lookup csd k = checkpoint_entry items k).
  { intros k. unfold csd, checkpoint_entry. rewrite dict_of_items_lookup.
    by destruct (last _). }
  destruct (filter_matching_layers_lookup current csd) as (filtered & -> & Hlookup).
  { apply dict_of_items_NoDup, NoDup_nil_2. }
  { apply Forall_forall. intros [k v] Hin. cbn.
    assert (Hk : dict_lookup csd k = Some v).
    { apply dict_lookup_NoDup; [apply dict_of_items_NoDup, NoDup_nil_2|done]. }
    rewrite Hcsd in Hk. unfold checkpoint_entry in Hk.
    apply fmap_Some in Hk as (kv & Hlast & ->).
    apply last_Some_elem_of, list_elem_of_filter in Hlast as [<- Hkv].
    by apply (proj1 (Forall_forall _ _) Hitems). }
  cbn [result_bind]. f_equal. unfold load_state_dict.
  apply map_ext_in. intros [k t] Hkt%list_elem_of_In. cbn. f_equal.
  rewrite (Hlookup k t (dict_lookup_NoDup _ _ _ Hnd Hkt)), Hcsd. unfold loaded_layer.
  destruct (checkpoint_entry items k) as [[sub|t']|]; [done| |done].
  by destruct (bool_decide _).
Qed.

(** X6. Loading a checkpoint never changes the architecture: whatever the
    checkpoint holds, when [load_model_weights] returns, the model has the
    layers it had, in the same order and each of the size it had. *)
Theorem load_model_weights_keeps_layers (current weights : StateDict)
    (checkpoint_path : PyArg) (debugging : bool) :
  NoDup current.*1 →
  load_model_weights current checkpoint_path debugging = Ok weights →
  weights.*1 = current.*1 ∧ tensor_size <$> weights.*2 = tensor_size <$> current.*2.
Proof.
  intros Hnd. unfold load_model_weights.
  destruct checkpoint_path as [|path|]; [done| |done].
  destruct (torch_load path) as [checkpoint|]; cbn [result_bind]; [|done].
  destruct (dict_get checkpoint _ _) as [inner|]; cbn [result_bind]; [|done].
  destruct (dict_get inner _ _) as [policy|]; cbn [result_bind]; [|done].
  destruct (dict_items policy) as [items|]; cbn [result_bind]; [|done].
  destruct (filter_matching_layers current _) as [filtered|] eqn:Hfiltered;
    cbn [result_bind]; [|done].
  intros [= <-]. apply load_state_dict_sizes; [done|].
  intros k t' Hin. by destruct (filter_matching_layers_elem _ _ _ _ _ Hfiltered Hin).
Qed.

(** X7. A checkpoint that is a plain dict of layers, without the keys
    [state_dict] and [policy], is loaded layer by layer: a layer of the model
    takes the tensor that the checkpoint holds under its name, with or
    without the prefix [scheduler_net.], if that tensor has the size of the
    layer, and keeps its value otherwise. Of several items for one layer the
    last one counts, and items that name no layer are ignored whatever they
    hold. *)
Theorem flat_checkpoint_loaded_by_layer (current : StateDict) (path : string)
    (debugging : bool) (items : list (string * PyObj)) :
  NoDup current.*1 →
  torch_load path = Ok (PyDict items) →
  "state_dict" ∉ items.*1 → "policy" ∉ items.*1 →
  Forall (λ kv, dict_lookup current (strip_prefix "scheduler_net." kv.1) = None ∨
                ∃ t, kv.2 = PyTensor t) items →
  load_model_weights current (PyStr path) debugging
  = Ok (map (λ kv, (kv.1, loaded_layer (checkpoint_entry items kv.1) kv.2)) current).
Proof.
  intros Hnd Hload Hstate%dict_lookup_None Hpolicy%dict_lookup_None Hitems.
  unfold load_model_weights. rewrite Hload. cbn [result_bind].
  rewrite dict_get_lookup, Hstate. cbn [result_bind from_option id].
  rewrite dict_get_lookup, Hpolicy. cbn [result_bind from_option id dict_items].
  by apply load_items.
Qed.

(** X8. The weights under [state_dict] are read only through a [policy]
    entry. For a checkpoint [{"state_dict": D, ...}] whose [D] has no key
    [policy], the second [get] falls back to the whole checkpoint, so that
    the keys looked up are [state_dict] and its neighbours: when none of
    them names a layer, the model is left as it was and no exception is
    raised, whatever [D] holds. *)
Theorem state_dict_without_policy_loads_nothing (current : StateDict) (path : string)
    (debugging : bool) (items inner : list (string * PyObj)) :
  NoDup current.*1 →
  torch_load path = Ok (PyDict items) →
  dict_lookup items "state_dict" = Some (PyDict inner) →
  "policy" ∉ inner.*1 →
  Forall (λ kv, dict_lookup current (strip_prefix "scheduler_net." kv.1) = None) items →
  load_model_weights current (PyStr path) debugging = Ok current.
Proof.
  intros Hnd Hload Hstate Hpolicy%dict_lookup_None Hitems.
  unfold load_model_weights. rewrite Hload. cbn [result_bind].
  rewrite dict_get_lookup, Hstate. cbn [result_bind from_option id].
  rewrite dict_get_lookup, Hpolicy. cbn [result_bind from_option id dict_items].
  rewrite load_items; [|done|by eapply Forall_impl; [done|left]].
  f_equal. rewrite <- (map_id current) at 2. apply map_ext_in.
  intros [k t] Hkt%list_elem_of_In. cbn. f_equal.
  unfold checkpoint_entry.
  destruct (last _) as [kv|] eqn:Hlast; [|done]. exfalso.
  apply last_Some_elem_of, list_elem_of_filter in Hlast as [Hk Hkv].
  apply (proj1 (Forall_forall _ _) Hitems) in Hkv. rewrite Hk in Hkv.
  by rewrite (dict_lookup_NoDup _ _ _ Hnd Hkt) in Hkv.
Qed.

(** X9. When there is a [policy] entry, in the checkpoint itself or in its
    [state_dict], it is the dict that is loaded, layer by layer. *)
Theorem policy_entry_loaded_by_layer (current : StateDict) (path : string)
    (debugging : bool) (top inner items : list (string * PyObj)) :
  NoDup current.*1 →
  torch_load path = Ok (PyDict top) →
  from_option id (PyDict top) (dict_lookup top "state_dict") = PyDict inner →
  dict_lookup inner "policy" = Some (PyDict items) →
  Forall (λ kv, dict_lookup current (strip_prefix "scheduler_net." kv.1) = None ∨
                ∃ t, kv.2 = PyTensor t) items →
  load_model_weights current (PyStr path) debugging
  = Ok (map (λ kv, (kv.1, loaded_layer (checkpoint_entry items kv.1) kv.2)) current).
Proof.
  intros Hnd Hload Hstate Hpolicy Hitems.
  unfold load_model_weights. rewrite Hload. cbn [result_bind].
  rewrite dict_get_lookup, Hstate. cbn [result_bind].
  rewrite dict_get_lookup, Hpolicy. cbn [result_bind from_option id dict_items].
  by apply load_items.
Qed.

Lemma prefix_app (prefix k : string) : String.prefix prefix (prefix +:+ k) = true.
Proof.
  induction prefix as [|a prefix IH].
  - change ("" +:+ k) with k. by destruct k.
  - change (String a prefix +:+ k) with (String a (prefix +:+ k)). cbn.
    by destruct (Ascii.ascii_dec a a).
Qed.

Lemma substring_all (k : string) : String.substring 0 (String.length k) k = k.
Proof. induction k as [|b k IH]; cbn; [done|by rewrite IH]. Qed.

Lemma substring_app (prefix k : string) :
  String.substring (String.length prefix) (String.length k) (prefix +:+ k) = k.
Proof.
  induction prefix as [|a prefix IH].
  - change ("" +:+ k) with k. apply substring_all.
  - change (String a prefix +:+ k) with (String a (prefix +:+ k)). by cbn.
Qed.

Lemma length_app_string (prefix k : string) :
  String.length (prefix +:+ k) = String.length prefix + String.length k.
Proof.
  induction prefix as [|a prefix IH]; [done|].
  change (String a prefix +:+ k) with (String a (prefix +:+ k)). cbn. by rewrite IH.
Qed.

(** X10. Removing the prefix undoes adding it: a layer saved as
    [prefix + k] is looked up as [k], also when [k] starts with the prefix
    again, of which only the first copy is removed. *)
Theorem strip_prefix_app (prefix k : string) : strip_prefix prefix (prefix +:+ k) = k.
Proof.
  unfold strip_prefix. rewrite prefix_app.
  replace (String.length (prefix +:+ k) - String.length prefix) with (String.length k)
    by (rewrite length_app_string; lia).
  apply substring_app.
Qed.

(** The filter looks at the model only for the names and sizes of its layers. *)
Lemma filter_matching_layers_sizes (c1 c2 : StateDict) items :
  (∀ k, tensor_size <$> dict_lookup c1 k = tensor_size <$> dict_lookup c2 k) →
  filter_matching_layers c1 items = filter_matching_layers c2 items.
Proof.
  intros Hsame. induction items as [|[k v] items IH]; [done|].
  cbn [filter_matching_layers]. rewrite IH. f_equal. unfold layer_matches.
  specialize (Hsame k).
  destruct (dict_lookup c1 k) as [t1|], (dict_lookup c2 k) as [t2|]; try done.
  injection Hsame as ->. done.
Qed.

Lemma dict_lookup_load_state_dict (current filtered : StateDict) k :
  dict_lookup (load_state_dict current filtered) k
  = (λ t, default t (dict_lookup filtered k)) <$> dict_lookup current k.
Proof.
  unfold load_state_dict. induction current as [|[k0 t0] current IH]; [done|].
  cbn [map fst snd]. rewrite !dict_lookup_cons.
  destruct (decide (k0 = k)) as [->|]; [done|apply IH].
Qed.

(** X17. Loading is idempotent: loading the same checkpoint into the model
    that a first loading returned returns that model again. *)
Theorem load_model_weights_idempotent (current weights : StateDict)
    (checkpoint_path : PyArg) (debugging : bool) :
  load_model_weights current checkpoint_path debugging = Ok weights →
  load_model_weights weights checkpoint_path debugging = Ok weights.
Proof.
  unfold load_model_weights.
  destruct checkpoint_path as [|path|]; [done| |done].
  destruct (torch_load path) as [checkpoint|]; cbn [result_bind]; [|done].
  destruct (dict_get checkpoint _ _) as [inner|]; cbn [result_bind]; [|done].
  destruct (dict_get inner _ _) as [policy|]; cbn [result_bind]; [|done].
  destruct (dict_items policy) as [items|]; cbn [result_bind]; [|done].
  set (csd := foldl _ [] items).
  destruct (filter_matching_layers current csd) as [filtered|] eqn:Hfiltered;
    cbn [result_bind]; [|done].
  intros [= <-].
  assert (Hsizes : ∀ k t', dict_lookup filtered k = Some t' →
            ∃ cur, dict_lookup current k = Some cur ∧ tensor_size t' = tensor_size cur).
  { intros k t' Hin%dict_lookup_Some_elem.
    by destruct (filter_matching_layers_elem _ _ _ _ _ Hfiltered Hin). }
  rewrite (filter_matching_layers_sizes _ current), Hfiltered.
  - cbn [result_bind]. f_equal. unfold load_state_dict, StateDict in *.
    change (map ?f (map ?g current)) with (f <$> (g <$> current)).
    change (map ?g current) with (g <$> current).
    rewrite <- list_fmap_compose. apply list_fmap_ext. intros i [k t] _. cbn.
    by destruct (dict_lookup filtered k).
  - intros k. rewrite dict_lookup_load_state_dict.
    destruct (dict_lookup current k) as [cur|] eqn:Hcur; [|done]. cbn.
    destruct (dict_lookup filtered k) as [t'|] eqn:Hlookup; [|done]. cbn.
    destruct (Hsizes k t' Hlookup) as (cur' & Hcur' & ->). congruence.
Qed.
End WeightLoadingProperties.


(** ** The bound on the makespan *)

Section BoundProperties.

Lemma result_mapM_app {A B} (f : A → Result B) (l1 l2 : list A) :
  result_mapM f (l1 ++ l2)
  = result_bind (result_mapM f l1) (λ ys1,
    result_bind (result_mapM f l2) (λ ys2, Ok (ys1 ++ ys2))).
Proof.
  induction l1 as [|x l1 IH]; cbn [result_mapM app result_bind].
  - by destruct (result_mapM f l2).
  - destruct (f x); cbn [result_bind]; [|done]. rewrite IH.
    destruct (result_mapM f l1); cbn [result_bind]; [|done].
    by destruct (result_mapM f l2).
Qed.

(** The comprehension of line 27 on the rows that exist. *)
Lemma row_maxima_take (rows : list (list Qc)) (n a : nat) :
  a + n ≤ length rows →
  result_mapM (λ task, match rows !! task with
                       | Some row => np_max row
                       | None => Raise (IndexError "index out of bounds")
                       end) (seq a n)
  = result_mapM np_max (take n (drop a rows)).
Proof.
  induction n as [|n IH] in a |- *; intros Hlen; [done|].
  cbn [seq result_mapM].
  destruct (lookup_lt_is_Some_2 rows a ltac:(lia)) as [row Hrow].
  rewrite Hrow, (drop_S _ _ _ Hrow). cbn [take result_mapM].
  rewrite IH by lia. done.
Qed.

Lemma result_mapM_np_max_ok (rows : list (list Qc)) :
  Forall (λ row, row ≠ []) rows →
  ∃ maxima, result_mapM np_max rows = Ok maxima ∧
            Forall2 (λ row mx, ∀ x, x ∈ row → (x ≤ mx)%Qc) rows maxima.
Proof.
  induction 1 as [|row rows Hrow _ (maxima & Hmaxima & Hall)]; [by eexists|].
  destruct row as [|x row]; [done|]. cbn [result_mapM np_max result_bind].
  rewrite Hmaxima. cbn [result_bind]. eexists. split; [done|].
  constructor; [|done]. clear. 
  assert (Hge : ∀ l acc, (acc ≤ foldl Qcmax acc l)%Qc ∧
                         ∀ y, y ∈ l → (y ≤ foldl Qcmax acc l)%Qc).
  { induction l as [|z l IH]; intros acc; cbn [foldl].
    - split; [apply Qcle_refl|by intros y ?%elem_of_nil].
    - destruct (IH (Qcmax acc z)) as [Hacc Hin].
      assert (Hmax : (acc ≤ Qcmax acc z)%Qc ∧ (z ≤ Qcmax acc z)%Qc).
      { unfold Qcmax. destruct (decide (acc < z)%Qc) as [Hlt|Hnlt].
        - split; [by apply Qclt_le_weak|apply Qcle_refl].
        - split; [apply Qcle_refl|by apply Qcnot_lt_le]. }
      destruct Hmax as [Hmax1 Hmax2].
      split; [by apply (Qcle_trans _ (Qcmax acc z))|].
      intros y [->|Hy]%elem_of_cons; [by apply (Qcle_trans _ (Qcmax acc z))|by apply Hin]. }
  destruct (Hge row x) as [Hfirst Hrest].
  intros y [->|Hy]%elem_of_cons; [done|by apply Hrest].
Qed.

Lemma result_mapM_np_max_raise (rows : list (list Qc)) :
  [] ∈ rows →
  result_mapM np_max rows
  = Raise (ValueError "zero-size array to reduction operation maximum which has no identity").
Proof.
  induction rows as [|row rows IH]; [by intros ?%elem_of_nil|].
  intros [<-|Hin]%elem_of_cons; [done|]. cbn [result_mapM].
  destruct row as [|x row]; [done|]. cbn [np_max result_bind]. by rewrite IH.
Qed.

Lemma worst_case_makespan_rows (problem_instance : ProblemInstance) :
  length (T_e problem_instance) ≤ length (T_t problem_instance) →
  worst_case_makespan problem_instance
  = result_bind
      (result_mapM np_max (take (length (T_e problem_instance)) (T_t problem_instance)))
      (λ maxima, Ok (np_sum (T_e problem_instance) + np_sum maxima)%Qc).
Proof.
  intros Hlen. unfold worst_case_makespan.
  by rewrite (row_maxima_take _ _ 0), drop_0 by lia.
Qed.

Lemma worst_case_makespan_short (problem_instance : ProblemInstance) :
  length (T_t problem_instance) < length (T_e problem_instance) →
  worst_case_makespan problem_instance
  = result_bind (result_mapM np_max (T_t problem_instance))
                (λ _, Raise (IndexError "index out of bounds")).
Proof.
  intros Hshort. unfold worst_case_makespan.
  set (n := length (T_e problem_instance)) in *. set (rows := T_t problem_instance) in *.
  replace n with (length rows + S (n - S (length rows))) by lia.
  rewrite seq_app, result_mapM_app, (row_maxima_take rows (length rows) 0) by lia.
  rewrite drop_0, firstn_all.
  destruct (result_mapM np_max rows); cbn [result_bind]; [|done].
  cbn [seq result_mapM plus]. by rewrite lookup_ge_None_2 by lia.
Qed.

(** X11. The bound of lines 26 to 28 looks at the first [len(T_e)] rows of
    [T_t] and at no other. It is computed when these rows exist and none is
    empty; an empty row among those that exist raises the [ValueError] of
    [np.max], and otherwise a missing row raises an [IndexError]. *)
Theorem worst_case_makespan_outcomes (problem_instance : ProblemInstance) :
  let n := length (T_e problem_instance) in
  let rows := take n (T_t problem_instance) in
  (n ≤ length (T_t problem_instance) → Forall (λ row, row ≠ []) rows →
   ∃ maxima,
     result_mapM np_max rows = Ok maxima ∧
     worst_case_makespan problem_instance
     = Ok (np_sum (T_e problem_instance) + np_sum maxima)%Qc) ∧
  ([] ∈ rows →
   worst_case_makespan problem_instance
   = Raise (ValueError
              "zero-size array to reduction operation maximum which has no identity")) ∧
  (length (T_t problem_instance) < n → Forall (λ row, row ≠ []) rows →
   worst_case_makespan problem_instance = Raise (IndexError "index out of bounds")).
Proof.
  cbv zeta. split_and!.
  - intros Hlen Hrows. rewrite worst_case_makespan_rows by done.
    destruct (result_mapM_np_max_ok _ Hrows) as (maxima & Hmaxima & _).
    exists maxima. by rewrite Hmaxima.
  - intros Hempty.
    destruct (decide (length (T_e problem_instance) ≤ length (T_t problem_instance))).
    + rewrite worst_case_makespan_rows by done. by rewrite result_mapM_np_max_raise.
    + rewrite take_ge in Hempty by lia. rewrite worst_case_makespan_short by lia.
      by rewrite result_mapM_np_max_raise.
  - intros Hshort Hrows. rewrite take_ge in Hrows by lia.
    rewrite worst_case_makespan_short by lia.
    by destruct (result_mapM_np_max_ok _ Hrows) as (maxima & -> & _).
Qed.

End BoundProperties.

(** ** The loop and the construction of the scheduler *)

Section LoopProperties.
Context `{DriverExternals}.

(** A decision point that returns has read the clock twice and recorded the
    difference. *)
Lemma decision_point_ok (st st' : Run) :
  decision_point st = (Ok tt, st') →
  current_run_computation_times st'
  = current_run_computation_times st
    ++ [(time_time (S (run_clock st)) - time_time (run_clock st))%Qc] ∧
  run_clock st' = S (S (run_clock st)).
Proof.
  unfold decision_point, decide_schedule.
  destruct (call_calculate_robot_assignment _ _ _) as [[[r scheduler] sim] generator].
  destruct r as [v|e]; [|done].
  destruct (isinstance_SadcherScheduler _).
  - destruct (result_bind _ _) as [[reward schedule]|e]; [|done]. by intros [= <-].
  - destruct (as_schedule v); [|done]. by intros [= <-].
Qed.

(** X13. The computation times that the loop returns are those it was
    started with followed by one entry per decision point made, in order,
    each the difference of two consecutive readings of the clock; the
    decision point that breaks the loop is counted. A run reported
    infeasible has made at least one decision point and reports the bound as
    its makespan; a run started on a finished simulation makes none and
    reports the makespan of that simulation as feasible. *)
Theorem simulation_loop_times (fuel : nat) (worst_case : Qc) (st : Run)
    (makespan_returned : Qc) (feasible : bool) (times : list Qc) :
  simulation_loop fuel worst_case st = Some (Ok (makespan_returned, feasible, times)) →
  ∃ n, n ≤ fuel ∧
    times = current_run_computation_times st
            ++ ((λ i, (time_time (run_clock st + 2 * i + 1)
                       - time_time (run_clock st + 2 * i))%Qc) <$> seq 0 n) ∧
    (feasible = false → 0 < n ∧ makespan_returned = worst_case) ∧
    (sim_done (run_sim st) = true →
     n = 0 ∧ feasible = true ∧ makespan_returned = makespan (run_sim st)).
Proof.
  revert st. induction fuel as [|fuel IH]; intros st; cbn [simulation_loop].
  - destruct (sim_done (run_sim st)); [|done]. intros [= <- <- <-].
    exists 0. cbn. by rewrite app_nil_r.
  - destruct (sim_done (run_sim st)).
    { intros [= <- <- <-]. exists 0. cbn. rewrite app_nil_r. split_and!; [lia|done..]. }
    destruct (decision_point st) as [[[]|e] st'] eqn:Hpoint; [|done].
    destruct (decision_point_ok _ _ Hpoint) as [Htimes Hclock].
    assert (Hcong : ∀ a b a' b', a = a' → b = b' →
              (time_time a - time_time b)%Qc = (time_time a' - time_time b')%Qc)
      by (by intros ???? -> ->).
    assert (Hshift : ∀ n,
      (λ i, (time_time (run_clock st + 2 * i + 1) - time_time (run_clock st + 2 * i))%Qc)
        <$> seq 0 (S n)
      = (time_time (S (run_clock st)) - time_time (run_clock st))%Qc
        :: ((λ i, (time_time (run_clock st' + 2 * i + 1)
                   - time_time (run_clock st' + 2 * i))%Qc) <$> seq 0 n)).
    { intros n. cbn [seq fmap list_fmap]. f_equal.
      - apply Hcong; lia.
      - rewrite <- fmap_S_seq, <- list_fmap_compose. apply list_fmap_ext.
        intros _ i _. cbn. rewrite Hclock.
        apply Hcong; lia. }
    destruct (decide (worst_case < timestep (run_sim st'))%Qc) as [Hlate|Hintime].
    + intros [= <- <- <-]. exists 1. rewrite Hshift, Htimes. cbn.
      split_and!; [lia|done|by split; [lia|]|done].
    + intros Hloop. destruct (IH st' Hloop) as (n & Hn & Hrest & Hinfeasible & _).
      exists (S n). rewrite Hshift, Hrest, Htimes, <- app_assoc. cbn [app].
      split_and!; [lia|done| |done].
      intros Hf. destruct (Hinfeasible Hf) as [_ ->]. split; [lia|done].
Qed.

End LoopProperties.

Section ConstructionProperties.
Context `{DriverExternals}.

Lemma create_scheduler_unknown name checkpoint_path duration_normalization
    location_normalization debugging stddev :
  name ∉ scheduler_names →
  create_scheduler name checkpoint_path duration_normalization location_normalization
                   debugging stddev
  = Raise (ValueError ("Unknown scheduler '" +:+ name +:+ "'")).
Proof.
  unfold scheduler_names, create_scheduler. intros Hname.
  repeat (destruct (decide _) as [Hin|_];
          [destruct Hname; set_unfold; set_unfold in Hin; tauto|]).
  done.
Qed.

(** X14. What [create_scheduler] returns. An object of [sadcher.py] is
    returned for the names [sadcher] and [stochastic_IL_sadcher] only; it has
    no matcher yet, holds the normalizations and the debug flag it was given
    and the weights that [load_model_weights] returned, and is of the
    stochastic class, with the given spread, exactly for the second name. The
    other names that return give an object of another class. *)
Theorem create_scheduler_returns (name : string) (checkpoint_path : PyArg)
    (duration_normalization location_normalization stddev : Qc) (debugging : bool)
    (scheduler : Scheduler) :
  create_scheduler name checkpoint_path duration_normalization location_normalization
                   debugging stddev = Ok scheduler →
  name ∈ scheduler_names ∧
  match scheduler with
  | SadcherObject self =>
      name ∈ sadcher_names ∧
      load_model_weights SchedulerNetwork_state_dict checkpoint_path debugging
      = Ok (trained_model self) ∧
      bipartite_matcher self = None ∧ debug self = debugging ∧
      self_duration_normalization self = duration_normalization ∧
      self_location_normalization self = location_normalization ∧
      class self = (if decide (name = "sadcher") then SadcherBase else StochasticIL stddev)
  | OtherObject _ => name ∉ sadcher_names
  end.
Proof.
  intros Hcreated. split.
  { destruct (decide (name ∈ scheduler_names)) as [|Hname]; [done|].
    by rewrite create_scheduler_unknown in Hcreated. }
  revert Hcreated. unfold create_scheduler, sadcher_names, result_map.
  destruct (decide (name = "greedy")) as [->|_].
  { destruct GreedyInstantaneousScheduler_init; cbn; [|done]. intros [= <-].
    apply (bool_decide_unpack _). by vm_compute. }
  destruct (decide (name = "random_bipartite")) as [->|_].
  { destruct RandomBipartiteMatchingScheduler_init; cbn; [|done]. intros [= <-].
    apply (bool_decide_unpack _). by vm_compute. }
  destruct (decide (name = "sadcher")) as [->|Hbase].
  { unfold SadcherScheduler_init.
    destruct (load_model_weights _ _ _) as [weights|]; cbn; [|done]. intros [= <-]. cbn.
    split_and!; try done. set_unfold; tauto. }
  destruct (decide (name ∈ ["rl_sadcher"; "rl_sadcher_sampling"])) as [Hrl|_].
  { destruct (RLSadcherScheduler_init _ _ _ _); cbn; [|done]. intros [= <-].
    set_unfold. intros [->|[->|[]]]; destruct Hrl as [Hrl|[Hrl|[]]]; done. }
  destruct (decide (name = "stochastic_IL_sadcher")) as [->|_]; [|done].
  unfold StochasticILSadcherScheduler_init, SadcherScheduler_init.
  destruct (load_model_weights _ _ _) as [weights|]; cbn; [|done]. intros [= <-]. cbn.
  split_and!; try done. set_unfold; tauto.
Qed.

(** X15. The name that the option [--include_stochastic_sadcher] adds to the
    benchmark is not one that [create_scheduler] has a branch for: of the
    names the benchmark passes on to [run_one_simulation] (all but [milp]),
    it is the only one [create_scheduler] does not know, and called with it
    [create_scheduler] raises [ValueError] whatever its other arguments. *)
Theorem benchmark_stochastic_name_unknown (include_milp include_stochastic_sadcher : bool)
    (name : string) :
  name ∈ benchmark_scheduler_names include_milp include_stochastic_sadcher →
  name ≠ "milp" →
  (name ∈ scheduler_names ↔ name ≠ "stochastic_sadcher") ∧
  (name = "stochastic_sadcher" →
   ∀ checkpoint_path duration_normalization location_normalization debugging stddev,
     create_scheduler name checkpoint_path duration_normalization location_normalization
                      debugging stddev
     = Raise (ValueError "Unknown scheduler 'stochastic_sadcher'")).
Proof.
  intros Hname Hmilp.
  assert (Hunknown : "stochastic_sadcher" ∉ scheduler_names)
    by (apply (bool_decide_unpack _); by vm_compute).
  split.
  - split; [by intros Hknown ->|]. intros Hother. unfold benchmark_scheduler_names in Hname.
    destruct include_milp, include_stochastic_sadcher; set_unfold in Hname;
      unfold scheduler_names; set_unfold; tauto.
  - intros -> *. by rewrite create_scheduler_unknown.
Qed.

End ConstructionProperties.

(** ** The guard of the loop and the errors of the configuration *)

Section GuardProperties.
Context `{DriverExternals}.

Lemma worst_case_makespan_value (problem_instance : ProblemInstance) (worst_case : Qc) :
  worst_case_makespan problem_instance = Ok worst_case →
  ∃ maxima,
    result_mapM np_max (take (length (T_e problem_instance)) (T_t problem_instance))
    = Ok maxima ∧
    worst_case = (np_sum (T_e problem_instance) + np_sum maxima)%Qc.
Proof.
  destruct (decide (length (T_e problem_instance) ≤ length (T_t problem_instance))).
  - rewrite worst_case_makespan_rows by done.
    destruct (result_mapM np_max _) as [maxima|]; cbn [result_bind]; [|done].
    intros [= <-]. by exists maxima.
  - rewrite worst_case_makespan_short by lia.
    by destruct (result_mapM np_max _).
Qed.

Lemma simulation_loop_continues fuel worst_case st st' :
  loop_continues worst_case st st' →
  simulation_loop (S fuel) worst_case st = simulation_loop fuel worst_case st'.
Proof.
  intros (Hdone & Hpoint & Hbound). cbn [simulation_loop]. rewrite Hdone, Hpoint.
  by rewrite decide_False.
Qed.

(** C3. In the loop of [run_one_simulation], whenever the clock is past the
    worst-case bound after a decision point, whatever the number of decision
    points made before it within the bound, the loop ends there and the
    triple returned is the bound as makespan, [feasible = False] and the
    computation times recorded so far; no exception is raised. The bound is
    the sum of the execution times plus the sum of the maxima of the tasks'
    rows of travel times. *)
Theorem infeasible_run_reported (problem_instance : ProblemInstance) (worst_case : Qc)
    (n fuel : nat) (st0 st st_late : Run) :
  worst_case_makespan problem_instance = Ok worst_case →
  nsteps (loop_continues worst_case) n st0 st →
  sim_done (run_sim st) = false →
  decision_point st = (Ok tt, st_late) →
  (worst_case < timestep (run_sim st_late))%Qc →
  n < fuel →
  (∃ maxima,
     result_mapM np_max (take (length (T_e problem_instance)) (T_t problem_instance))
     = Ok maxima ∧
     worst_case = (np_sum (T_e problem_instance) + np_sum maxima)%Qc) ∧
  simulation_loop fuel worst_case st0
  = Some (Ok (worst_case, false, current_run_computation_times st_late)).
Proof.
  intros Hbound Hsteps Hdone Hpoint Hlate Hfuel.
  split; [by apply worst_case_makespan_value|]. clear Hbound.
  revert fuel Hfuel. induction Hsteps as [st|n st0 st1 st Hstep _ IH]; intros fuel Hfuel.
  - destruct fuel as [|fuel]; [lia|]. by apply simulation_loop_infeasible.
  - destruct fuel as [|fuel]; [lia|].
    rewrite (simulation_loop_continues _ _ _ _ Hstep). apply IH; [done..|lia].
Qed.

End GuardProperties.

Lemma infeasible_run_reported_witness :
  let problem := {| T_e := [Demo.qc 10; Demo.qc 2];
                    T_t := [[Demo.qc 1; Demo.qc 2]; [Demo.qc 3; Demo.qc 4]] |} in
  worst_case_makespan problem = Ok (Demo.qc 18) ∧
  @simulation_loop Demo.externals Demo.driver 2 (Demo.qc 18) (Demo.run Demo.greedy_object)
  = Some (Ok (Demo.qc 18, false, [Demo.qc 1; Demo.qc 1])).
Proof.
  cbv zeta. split; [by vm_compute|].
  set (st0 := Demo.run Demo.greedy_object).
  set (st1 := (@decision_point Demo.externals Demo.driver st0).2).
  set (st2 := (@decision_point Demo.externals Demo.driver st1).2).
  pose proof (@infeasible_run_reported Demo.externals Demo.driver
                {| T_e := [Demo.qc 10; Demo.qc 2];
                   T_t := [[Demo.qc 1; Demo.qc 2]; [Demo.qc 3; Demo.qc 4]] |}
                (Demo.qc 18) 1 2 st0 st1 st2) as Hreported.
  destruct Hreported as [_ Hloop].
  - by vm_compute.
  - apply nsteps_once. split_and!; [reflexivity|reflexivity|].
    apply Qcle_not_lt. by vm_compute.
  - reflexivity.
  - reflexivity.
  - by vm_compute.
  - lia.
  - exact Hloop.
Defined.

Section ConfigurationProperties.
Context `{DriverExternals}.





End ConfigurationProperties.



(** The properties above on the concrete setting. *)

Lemma decision_point_failures_witness :
  let w := Demo.world Demo.midgame_sim (StochasticIL (Demo.qc (-1))) in
  result_of (calculate_robot_assignment w) = Raise (RuntimeError "normal expects std >= 0.0") ∧
  w_sim (world_of (calculate_robot_assignment w)) = w_sim w ∧
  w_self (world_of (calculate_robot_assignment w)) = w_self w.
Proof.
  cbv zeta.
  pose proof (@decision_point_failures Demo.externals
                (Demo.world Demo.midgame_sim (StochasticIL (Demo.qc (-1))))) as [_ Hraise].
  assert (Hrun : result_of (calculate_robot_assignment
                              (Demo.world Demo.midgame_sim (StochasticIL (Demo.qc (-1)))))
                 = Raise (RuntimeError "normal expects std >= 0.0")) by (by vm_compute).
  destruct (Hraise _ Hrun) as (_ & Hsim & Hself & _). by split_and!.
Defined.

Lemma general_branch_result_witness :
  let w := Demo.world Demo.midgame_sim SadcherBase in
  matcher_inputs (events_of (calculate_robot_assignment w))
  = [map frame_row (sampled_reward w)] ∧
  bipartite_matcher (w_self (world_of (calculate_robot_assignment w))) = Some 1.
Proof.
  cbv zeta.
  pose proof (@general_branch_result Demo.externals (Demo.world Demo.midgame_sim SadcherBase)
                ltac:(vm_compute; lia) ltac:(by vm_compute)) as (_ & Hinputs & Hmatcher & _).
  split; [exact Hinputs|]. rewrite Hmatcher. by vm_compute.
Defined.

Lemma matcher_built_at_most_once_witness :
  let out := calculate_robot_assignment (Demo.world Demo.midgame_sim SadcherBase) in
  filter (λ e, is_matcher_built e = true) (events_of out) = [MatcherBuilt] ∧
  filter (λ e, is_matcher_built e = true)
         (events_of (calculate_robot_assignment (world_of out))) = [].
Proof.
  cbv zeta.
  pose proof (@matcher_built_at_most_once Demo.externals
                (Demo.world Demo.midgame_sim SadcherBase)) as (_ & _ & Hlater).
  destruct (Hlater ltac:(vm_compute; lia) ltac:(by vm_compute)) as [_ Hnone].
  split; [by vm_compute|]. by apply Hnone.
Defined.

Lemma endgame_decision_repeats_witness :
  let first := calculate_robot_assignment (Demo.world Demo.endgame_sim SadcherBase) in
  world_of (calculate_robot_assignment (world_of first)) = world_of first.
Proof.
  cbv zeta.
  pose proof (@endgame_decision_repeats Demo.externals
                (Demo.world Demo.endgame_sim SadcherBase) (Demo.pending_task 2)
                ltac:(by vm_compute)) as (_ & Hworld & _).
  exact Hworld.
Defined.
Lemma reward_has_row_per_robot_witness :
  ∃ reward schedule,
    result_of (calculate_robot_assignment (Demo.world Demo.midgame_sim SadcherBase))
    = Ok (reward, schedule) ∧
    length reward = 2.
Proof.
  do 2 eexists. split; [vm_compute; reflexivity|].
  apply (@reward_has_row_per_robot Demo.externals (Demo.world Demo.midgame_sim SadcherBase)
           _ {| robot_assignments := {[0 := 1; 1 := 2]} |}).
  vm_compute. reflexivity.
Defined.

Lemma load_model_weights_keeps_layers_witness :
  let weights := [("encoder.weight", CheckpointDemo.tensor [2] [3; 4]);
                  ("decoder.bias", CheckpointDemo.tensor [1] [0])] in
  @load_model_weights CheckpointDemo.externals CheckpointDemo.model (PyStr "flat.pt") false
  = Ok weights ∧
  weights.*1 = CheckpointDemo.model.*1 ∧
  tensor_size <$> weights.*2 = tensor_size <$> CheckpointDemo.model.*2.
Proof.
  cbv zeta. split; [by vm_compute|].
  apply (@load_model_weights_keeps_layers CheckpointDemo.externals CheckpointDemo.model _
           (PyStr "flat.pt") false).
  - apply (bool_decide_unpack _). by vm_compute.
  - by vm_compute.
Defined.

Lemma flat_checkpoint_loaded_by_layer_witness :
  @load_model_weights CheckpointDemo.externals CheckpointDemo.model (PyStr "flat.pt") false
  = Ok [("encoder.weight", CheckpointDemo.tensor [2] [3; 4]);
        ("decoder.bias", CheckpointDemo.tensor [1] [0])].
Proof.
  rewrite (@flat_checkpoint_loaded_by_layer CheckpointDemo.externals CheckpointDemo.model
             "flat.pt" false CheckpointDemo.flat).
  - by vm_compute.
  - apply (bool_decide_unpack _). by vm_compute.
  - by vm_compute.
  - apply (bool_decide_unpack _). by vm_compute.
  - apply (bool_decide_unpack _). by vm_compute.
  - unfold CheckpointDemo.flat. rewrite !Forall_cons, Forall_nil.
    split_and!; [right; by eexists|right; by eexists|left; by vm_compute|done].
Defined.

Lemma state_dict_without_policy_loads_nothing_witness :
  @load_model_weights CheckpointDemo.externals CheckpointDemo.model (PyStr "wrapped.pt") false
  = Ok CheckpointDemo.model.
Proof.
  apply (@state_dict_without_policy_loads_nothing CheckpointDemo.externals
           CheckpointDemo.model "wrapped.pt" false CheckpointDemo.wrapped
           [("encoder.weight", PyTensor (CheckpointDemo.tensor [2] [7; 8]))]).
  - apply (bool_decide_unpack _). by vm_compute.
  - by vm_compute.
  - by vm_compute.
  - apply (bool_decide_unpack _). by vm_compute.
  - unfold CheckpointDemo.wrapped. rewrite !Forall_cons, Forall_nil.
    split_and!; by vm_compute.
Defined.

Lemma policy_entry_loaded_by_layer_witness :
  @load_model_weights CheckpointDemo.externals CheckpointDemo.model
     (PyStr "with_policy.pt") false
  = Ok [("encoder.weight", CheckpointDemo.tensor [2] [0; 0]);
        ("decoder.bias", CheckpointDemo.tensor [1] [9])].
Proof.
  rewrite (@policy_entry_loaded_by_layer CheckpointDemo.externals CheckpointDemo.model
             "with_policy.pt" false CheckpointDemo.with_policy
             [("policy", PyDict [("scheduler_net.decoder.bias",
                                  PyTensor (CheckpointDemo.tensor [1] [9]))])]
             [("scheduler_net.decoder.bias", PyTensor (CheckpointDemo.tensor [1] [9]))]).
  - by vm_compute.
  - apply (bool_decide_unpack _). by vm_compute.
  - by vm_compute.
  - by vm_compute.
  - by vm_compute.
  - rewrite Forall_singleton. right. by eexists.
Defined.

Lemma worst_case_makespan_outcomes_witness :
  worst_case_makespan Demo.problem = Ok (Demo.qc 9) ∧
  worst_case_makespan {| T_e := [Demo.qc 1; Demo.qc 2]; T_t := [[Demo.qc 1]] |}
  = Raise (IndexError "index out of bounds") ∧
  worst_case_makespan {| T_e := [Demo.qc 1; Demo.qc 2]; T_t := [[]] |}
  = Raise (ValueError "zero-size array to reduction operation maximum which has no identity").
Proof.
  split_and!.
  - pose proof (worst_case_makespan_outcomes Demo.problem) as (Hok & _ & _).
    destruct Hok as (maxima & Hmaxima & ->).
    + cbn. lia.
    + repeat constructor; done.
    + vm_compute in Hmaxima. injection Hmaxima as <-. by vm_compute.
  - pose proof (worst_case_makespan_outcomes
                  {| T_e := [Demo.qc 1; Demo.qc 2]; T_t := [[Demo.qc 1]] |}) as (_ & _ & Hshort).
    apply Hshort; [cbn; lia|repeat constructor; done].
  - pose proof (worst_case_makespan_outcomes
                  {| T_e := [Demo.qc 1; Demo.qc 2]; T_t := [[]] |}) as (_ & Hempty & _).
    apply Hempty. cbn. left.
Defined.

Lemma simulation_loop_times_witness :
  let st := Demo.run Demo.greedy_object in
  @simulation_loop Demo.externals Demo.driver 5 (Demo.qc 15) st
  = Some (Ok (Demo.qc 15, false, [Demo.qc 1; Demo.qc 1])) ∧
  ∃ n, 0 < n ≤ 5 ∧
       [Demo.qc 1; Demo.qc 1]
       = (λ i, (@time_time Demo.externals Demo.driver (run_clock st + 2 * i + 1)
                - @time_time Demo.externals Demo.driver (run_clock st + 2 * i))%Qc)
           <$> seq 0 n.
Proof.
  cbv zeta. split; [by vm_compute|].
  destruct (@simulation_loop_times Demo.externals Demo.driver 5 (Demo.qc 15)
              (Demo.run Demo.greedy_object) (Demo.qc 15) false [Demo.qc 1; Demo.qc 1]
              ltac:(by vm_compute)) as (n & Hn & Htimes & Hinfeasible & _).
  exists n. destruct (Hinfeasible eq_refl) as [Hpos _]. split; [lia|exact Htimes].
Defined.

Lemma create_scheduler_returns_witness :
  let self : @SadcherScheduler Demo.externals :=
    {| trained_model := [("encoder.weight",
                          {| tensor_size := [2]; tensor_data := [Demo.qc 3; Demo.qc 4] |})];
       debug := false;
       self_duration_normalization := Demo.qc 100;
       self_location_normalization := Demo.qc 100;
       bipartite_matcher := None; class := StochasticIL (Demo.qc 1) |} in
  @create_scheduler Demo.externals Demo.driver "stochastic_IL_sadcher" (PyStr "model.pt")
    (Demo.qc 100) (Demo.qc 100) false (Demo.qc 1) = Ok (SadcherObject self) ∧
  "stochastic_IL_sadcher" ∈ sadcher_names ∧
  @load_model_weights Demo.externals (@SchedulerNetwork_state_dict Demo.externals)
    (PyStr "model.pt") false = Ok (trained_model self).
Proof.
  cbv zeta.
  assert (Hcreated :
    @create_scheduler Demo.externals Demo.driver "stochastic_IL_sadcher" (PyStr "model.pt")
      (Demo.qc 100) (Demo.qc 100) false (Demo.qc 1)
    = Ok (SadcherObject
            {| trained_model := [("encoder.weight",
                                  {| tensor_size := [2];
                                     tensor_data := [Demo.qc 3; Demo.qc 4] |})];
               debug := false;
               self_duration_normalization := Demo.qc 100;
               self_location_normalization := Demo.qc 100;
               bipartite_matcher := None; class := StochasticIL (Demo.qc 1) |}))
    by reflexivity.
  split; [exact Hcreated|].
  pose proof (@create_scheduler_returns Demo.externals Demo.driver _ _ _ _ _ _ _ Hcreated)
    as [_ (Hname & Hweights & _)].
  split; [exact Hname|exact Hweights].
Defined.

Lemma benchmark_stochastic_name_unknown_witness :
  ("stochastic_sadcher" ∉ scheduler_names) ∧
  @create_scheduler Demo.externals Demo.driver "stochastic_sadcher" (PyStr "model.pt")
    (Demo.qc 100) (Demo.qc 100) false (Demo.qc 1)
  = Raise (ValueError "Unknown scheduler 'stochastic_sadcher'").
Proof.
  destruct (@benchmark_stochastic_name_unknown Demo.externals Demo.driver false true
              "stochastic_sadcher") as [Hknown Hraise].
  - apply (bool_decide_unpack _). by vm_compute.
  - done.
  - split; [|by apply Hraise]. intros Hin. by apply Hknown in Hin.
Defined.

Lemma load_model_weights_idempotent_witness :
  let weights := [("encoder.weight", CheckpointDemo.tensor [2] [3; 4]);
                  ("decoder.bias", CheckpointDemo.tensor [1] [0])] in
  @load_model_weights CheckpointDemo.externals CheckpointDemo.model (PyStr "flat.pt") false
  = Ok weights ∧
  @load_model_weights CheckpointDemo.externals weights (PyStr "flat.pt") false = Ok weights.
Proof.
  cbv zeta. split; [by vm_compute|].
  apply (@load_model_weights_idempotent CheckpointDemo.externals CheckpointDemo.model).
  by vm_compute.
Defined.
